(** * KuKirin G4 BLE mode HUD: a shallow embedding of [ble_mode_reader.py]

    The development follows the layout of the script:
    - [Py]      : the few pieces of Python semantics the script relies on
                  (exceptions, indexing, truthiness);
    - [Hud]     : the protocol constants and the notification callback
                  [on_notify] of [live_hud], with its mutable holder
                  [last_mode];
    - [Scanner] : the body of [scan_devices] (the [found] dict and the
                  RSSI sort);
    - [Session] : [live_hud], [connect_and_run] and the loop of [main], as
                  programs over a trace of calls to the BLE library. *)

From Stdlib Require Import List String Ascii Strings.Byte NArith ZArith Bool Arith Lia.
From Stdlib Require Import Permutation Sorted.
From Stdlib Require Import DecimalString DecimalNat.
Import ListNotations.

Set Implicit Arguments.

(* ================================================================== *)
(** ** Python semantics used by the script *)
(* ================================================================== *)

Module Py.

(** Exceptions, split the way the [except] clauses of the script split
    them: [KeyboardInterrupt], the other classes that derive from
    [BaseException] only ([CancelledError], [SystemExit], ...), and the
    classes that derive from [Exception] ([IndexError], [BleakError],
    [TimeoutError], ...). *)
Inductive exn : Type :=
| KeyboardInterrupt
| BaseOnly (cls : string)
| Exception (cls : string).

Definition is_Exception (e : exn) : bool :=
  match e with Exception _ => true | _ => false end.

Definition is_KeyboardInterrupt (e : exn) : bool :=
  match e with KeyboardInterrupt => true | _ => false end.

(** The result of running a piece of Python: a value or a raised
    exception. *)
Inductive res (A : Type) : Type :=
| Ret (a : A)
| Raise (e : exn).
Arguments Raise {A} e.

Definition bind {A B} (r : res A) (k : A -> res B) : res B :=
  match r with
  | Ret a => k a
  | Raise e => Raise e
  end.

(** [data[i]] on a [bytearray], for a non-negative index. *)
Definition getitem (data : list byte) (i : nat) : res byte :=
  match nth_error data i with
  | Some b => Ret b
  | None => Raise (Exception "IndexError")
  end.

(** [not data] on a sequence. *)
Definition py_not {A} (data : list A) : bool :=
  match data with [] => true | _ => false end.

(** [v != s] where [v] holds [None] or a [str] and [s] is a [str]. *)
Definition ne_str (v : option string) (s : string) : bool :=
  match v with
  | None => true
  | Some t => negb (String.eqb t s)
  end.

End Py.

Import Py.

Declare Scope py_scope.
Delimit Scope py_scope with py.
Notation "x <- c ;; k" := (bind c (fun x => k))
  (at level 61, c at next level, right associativity) : py_scope.

(* ================================================================== *)
(** ** Constants and the notification callback *)
(* ================================================================== *)

Module Hud.

Local Open Scope string_scope.

(** *** Protocol constants *)
Definition FFF2_UUID : string := "0000fff2-0000-1000-8000-00805f9b34fb".
Definition GATE_OFFSET : nat := 6.
Definition GATE_VALUE : N := 0x00.
Definition MODE_OFFSET : nat := 5.
Definition MODE_MAP : list (N * string) :=
  [(0x01%N, "ECO"); (0x02%N, "SPORT"); (0x03%N, "RACE")].

(** [MODE_MAP.get(k)] *)
Fixpoint dict_get (d : list (N * string)) (k : N) : option string :=
  match d with
  | [] => None
  | (k', v) :: d' => if N.eqb k' k then Some v else dict_get d' k
  end.

(** *** Colours *)
Definition ESC : string := String (ascii_of_nat 27) EmptyString.
Definition CR : string := String (ascii_of_nat 13) EmptyString.
Definition LF : string := String (ascii_of_nat 10) EmptyString.

Definition GREEN : string := "32".
Definition BLUE : string := "34".
Definition RED : string := "31".
Definition GREY : string := "90".
Definition BOLD : string := "1".

Definition ceco : string := ESC ++ "[" ++ BOLD ++ ";" ++ GREEN ++ "mECO" ++ ESC ++ "[0m".
Definition csport : string := ESC ++ "[" ++ BOLD ++ ";" ++ BLUE ++ "mSPORT" ++ ESC ++ "[0m".
Definition crace : string := ESC ++ "[" ++ BOLD ++ ";" ++ RED ++ "mRACE" ++ ESC ++ "[0m".

(** [" " * n] *)
Fixpoint spaces (n : nat) : string :=
  match n with
  | O => EmptyString
  | S n' => String " "%char (spaces n')
  end.

(** *** The lines built once in [live_hud] *)
Definition PREFIX : string := "MODE: ".
Definition ECO_LINE : string := CR ++ PREFIX ++ ceco ++ spaces 12.
Definition SPORT_LINE : string := CR ++ PREFIX ++ csport ++ spaces 12.
Definition RACE_LINE : string := CR ++ PREFIX ++ crace ++ spaces 12.

(** *** The mutable holder [last_mode = {"val": None}] *)
Record LastMode : Type := { val : option string }.

Definition last_mode_init : LastMode := {| val := None |}.

Local Open Scope py_scope.

(** *** [on_notify(_handle, data)]

    The callback returns the holder after the call and the strings it
    wrote to [sys.stdout], in order.  [_handle] is unused and left
    out. *)
Definition on_notify (last_mode : LastMode) (data : list byte)
  : res (LastMode * list string) :=
  if py_not data then Ret (last_mode, [])
  else if (List.length data <=? Nat.max GATE_OFFSET MODE_OFFSET)%nat then Ret (last_mode, [])
  else
    g <- getitem data GATE_OFFSET ;;
    if negb (N.eqb (Byte.to_N g) GATE_VALUE) then Ret (last_mode, [])
    else
      b <- getitem data MODE_OFFSET ;;
      if N.eqb (Byte.to_N b) 0x01 then
        if ne_str (val last_mode) "ECO"
        then Ret ({| val := Some "ECO" |}, [ECO_LINE])
        else Ret (last_mode, [])
      else if N.eqb (Byte.to_N b) 0x02 then
        if ne_str (val last_mode) "SPORT"
        then Ret ({| val := Some "SPORT" |}, [SPORT_LINE])
        else Ret (last_mode, [])
      else if N.eqb (Byte.to_N b) 0x03 then
        if ne_str (val last_mode) "RACE"
        then Ret ({| val := Some "RACE" |}, [RACE_LINE])
        else Ret (last_mode, [])
      else Ret (last_mode, []).

(** The callback invoked on the frames of a session, in the order the
    transport delivers them; the writes are concatenated. *)
Fixpoint notify_all (last_mode : LastMode) (frames : list (list byte))
  : res (LastMode * list string) :=
  match frames with
  | [] => Ret (last_mode, [])
  | data :: rest =>
      r <- on_notify last_mode data ;;
      r' <- notify_all (fst r) rest ;;
      Ret (fst r', (snd r ++ snd r')%list)
  end.

(** *** The components the specification names

    The script has no separate decoder or display-state object: both
    live inside [on_notify].  The next definitions follow the words of
    the specification (sections 4.1, 4.2 and the callback pipeline of
    4.4); [on_notify_pipeline] below compares them with the code. *)
Inductive Mode : Type := ECO | SPORT | RACE.

Definition mode_name (m : Mode) : string :=
  match m with ECO => "ECO" | SPORT => "SPORT" | RACE => "RACE" end.

Definition mode_byte (m : Mode) : byte :=
  match m with ECO => x01 | SPORT => x02 | RACE => x03 end.

Definition mode_line (m : Mode) : string :=
  match m with ECO => ECO_LINE | SPORT => SPORT_LINE | RACE => RACE_LINE end.

Definition spec_decode (frame : list byte) : option Mode :=
  if (List.length frame <? 7)%nat then None
  else match nth_error frame 6, nth_error frame 5 with
       | Some g, Some b =>
           if negb (Byte.eqb g x00) then None
           else if Byte.eqb b x01 then Some ECO
           else if Byte.eqb b x02 then Some SPORT
           else if Byte.eqb b x03 then Some RACE
           else None
       | _, _ => None
       end.

Definition spec_observe (state : LastMode) (mode : Mode)
  : LastMode * list string :=
  if ne_str (val state) (mode_name mode)
  then ({| val := Some (mode_name mode) |}, [mode_line mode])
  else (state, []).

Definition spec_pipeline (state : LastMode) (frame : list byte)
  : LastMode * list string :=
  match spec_decode frame with
  | Some mode => spec_observe state mode
  | None => (state, [])
  end.

(** A frame that carries mode [m]: long enough, gate byte zero, mode
    byte the code of [m]. *)
Definition carries (m : Mode) (data : list byte) : Prop :=
  7 <= List.length data /\
  nth_error data 6 = Some x00 /\
  nth_error data 5 = Some (mode_byte m).

(** The holder only ever contains [None] or one of the three names. *)
Definition holder_ok (s : LastMode) : Prop :=
  val s = None \/ val s = Some "ECO" \/ val s = Some "SPORT" \/ val s = Some "RACE".

(** The three ways a frame carries no mode: too short, gate byte not
    zero, mode byte none of the three codes. *)
Definition no_mode (data : list byte) : Prop :=
  List.length data < 7 \/
  nth_error data 6 <> Some x00 \/
  (forall m, nth_error data 5 <> Some (mode_byte m)).

(** [spec_observe] on a sequence of modes, the render actions in order. *)
Fixpoint observe_all (state : LastMode) (modes : list Mode)
  : LastMode * list string :=
  match modes with
  | [] => (state, [])
  | m :: rest =>
      let (s, out) := spec_observe state m in
      let (s', out') := observe_all s rest in
      (s', (out ++ out')%list)
  end.

End Hud.

(* ================================================================== *)
(** ** The scanner *)
(* ================================================================== *)

Module Scanner.

Local Open Scope Z_scope.

(** What the script reads of a [BLEDevice]: [d.address], [d.name] and
    [getattr(d, "rssi", None)]; [rssi] is [None] when the attribute is
    missing or is not an [int]. *)
Record BLEDevice : Type := {
  address : string;
  name : option string;
  rssi : option Z
}.

(** [found[k] = v] on a [dict]: a key already present keeps its place in
    the insertion order and gets the new value, a new key goes last. *)
Fixpoint dict_set (found : list (string * BLEDevice)) (k : string) (v : BLEDevice)
  : list (string * BLEDevice) :=
  match found with
  | [] => [(k, v)]
  | (k', v') :: rest =>
      if String.eqb k' k then (k', v) :: rest
      else (k', v') :: dict_set rest k v
  end.

(** [found.values()] *)
Definition values (found : list (string * BLEDevice)) : list BLEDevice :=
  map snd found.

(** [on_detect(d, adv)]: save by address. *)
Definition on_detect (found : list (string * BLEDevice)) (d : BLEDevice)
  : list (string * BLEDevice) :=
  dict_set found (address d) d.

(** [rssi_of(dev)] *)
Definition rssi_of (dev : BLEDevice) : Z :=
  match rssi dev with
  | Some v => v
  | None => -999
  end.

(** [devices.sort(key=..., reverse=True)]: Python's sort is stable, also
    under [reverse=True], so among equal keys the earlier element stays
    first.  Insertion from the right gives exactly that order. *)
Fixpoint insert_desc (key : BLEDevice -> Z) (x : BLEDevice) (l : list BLEDevice)
  : list BLEDevice :=
  match l with
  | [] => [x]
  | y :: rest =>
      if key y <=? key x then x :: y :: rest
      else y :: insert_desc key x rest
  end.

Definition sort_reverse (key : BLEDevice -> Z) (l : list BLEDevice) : list BLEDevice :=
  fold_right (insert_desc key) [] l.

(** [scan_devices]: [events] are the advertisements the detection
    callback receives between [scanner.start()] and [scanner.stop()], in
    order.  The prints are left out; the returned list is modelled. *)
Definition scan_devices (events : list BLEDevice) : list BLEDevice :=
  let found := fold_left on_detect events [] in
  let devices := values found in
  if py_not devices then []
  else sort_reverse rssi_of devices.

(** The [found] dict as [on_detect] keeps it: no key twice, and every
    device under its own address. *)
Definition found_ok (found : list (string * BLEDevice)) : Prop :=
  NoDup (map fst found) /\
  Forall (fun kv => fst kv = address (snd kv)) found.

(** [d] is the last advertisement of its address among [events]. *)
Definition last_seen (events : list BLEDevice) (d : BLEDevice) : Prop :=
  exists pre post,
    events = pre ++ d :: post /\ ~ In (address d) (map address post).

(** Signal strength descending, by the sort key. *)
Definition sorted_desc (l : list BLEDevice) : Prop :=
  StronglySorted (fun a b => rssi_of b <= rssi_of a) l.

(** Devices of unknown signal strength come after every device of known
    signal strength. *)
Definition unknown_last (l : list BLEDevice) : Prop :=
  forall i j di dj,
    nth_error l i = Some di -> nth_error l j = Some dj ->
    rssi di = None -> rssi dj <> None -> (j < i)%nat.

(** RSSI as a BLE controller reports it is a signed 8-bit number of dBm:
    a known reading is never below -128. *)
Definition readings_in_range (events : list BLEDevice) : Prop :=
  Forall (fun d => forall v, rssi d = Some v -> -128 <= v) events.

(** The same, against the devices whose known signal strength is above
    the value [rssi_of] gives to an unknown one. *)
Definition unknown_after_above (floor : Z) (l : list BLEDevice) : Prop :=
  forall i j di dj v,
    nth_error l i = Some di -> nth_error l j = Some dj ->
    rssi di = None -> rssi dj = Some v -> floor < v -> (j < i)%nat.

Local Open Scope string_scope.

Definition dev_A : BLEDevice := {| address := "A"; name := None; rssi := Some (-40) |}.
Definition dev_B : BLEDevice := {| address := "B"; name := None; rssi := Some (-70) |}.
Definition dev_C : BLEDevice := {| address := "C"; name := None; rssi := None |}.

(** A device with a reading that no BLE controller reports, below the
    value that [rssi_of] gives to a device without a reading. *)
Definition dev_far : BLEDevice := {| address := "D"; name := None; rssi := Some (-1000) |}.

End Scanner.

(* ================================================================== *)
(** ** The session: [live_hud], [connect_and_run], the loop of [main] *)
(* ================================================================== *)

Module Session.

Import Hud Scanner.

(** What the script prints around a session (timestamps and colours
    left out). *)
Inductive message : Type :=
| MsgConnecting (address : string)
| MsgCouldNotConnect
| MsgConnected
| MsgSessionError (e : exn)
| MsgBlank.

(** The calls a session makes, in the order it makes them. *)
Inductive event : Type :=
| Connect (address : string)      (* BleakClient.__aenter__ *)
| IsConnected                     (* the connection-status query *)
| StartNotify (uuid : string)
| Sleep                           (* await asyncio.sleep(3600) *)
| StdoutWrite (s : string)        (* sys.stdout.write + flush *)
| StopNotify (uuid : string)
| Disconnect                      (* BleakClient.__aexit__ *)
| Print (m : message).

(** How the BLE library and the outside world answer during one
    session.  [sleeps i] gives the frames the transport delivers to the
    callback while the [i]-th sleep is pending, and how that sleep ends:
    it completes, or an exception (the interrupt) is raised in it. *)
Record Env : Type := {
  aenter : res unit;
  is_connected_first : res bool;
  is_connected_again : res bool;
  start_notify : res unit;
  sleeps : nat -> list (list byte) * res unit;
  stop_notify : res unit;
  aexit : res unit
}.

(** A program run: the calls made so far and, when the run is over, its
    result; [None] is a run that is still going when the fuel of its
    [while True] loop is used up. *)
Definition prog (A : Type) : Type := (list event * option (res A))%type.

Definition ret {A} (a : A) : prog A := ([], Some (Ret a)).

Definition call {A} (ev : event) (answer : res A) : prog A := ([ev], Some answer).

Definition pbind {A B} (p : prog A) (k : A -> prog B) : prog B :=
  match p with
  | (t, Some (Ret a)) => let (t', o) := k a in (t ++ t', o)
  | (t, Some (Raise e)) => (t, Some (Raise e))
  | (t, None) => (t, None)
  end.

(** [try: body / except <classes>: handler] *)
Definition try_except {A} (body : prog A) (handles : exn -> bool)
           (handler : exn -> prog A) : prog A :=
  match body with
  | (t, Some (Raise e)) =>
      if handles e then let (t', o) := handler e in (t ++ t', o)
      else (t, Some (Raise e))
  | _ => body
  end.

(** [try: body / finally: fin]: [fin] runs once [body] is over, however
    it ended; an exception of [fin] replaces the outcome of [body]. *)
Definition try_finally {A} (body : prog A) (fin : prog unit) : prog A :=
  match body with
  | (t, None) => (t, None)
  | (t, Some r) =>
      match fin with
      | (t', Some (Ret _)) => (t ++ t', Some r)
      | (t', Some (Raise e)) => (t ++ t', Some (Raise e))
      | (t', None) => (t ++ t', None)
      end
  end.

(** [async with cm: body], for a context manager whose [__aexit__]
    returns [None] (bleak's does): [__aexit__] runs once [body] is over,
    and never when [__aenter__] raised. *)
Definition async_with {A} (enter : prog unit) (exit : prog unit) (body : prog A)
  : prog A :=
  pbind enter (fun _ => try_finally body exit).

Notation "x <-- c ;; k" := (pbind c (fun x => k))
  (at level 61, c at next level, right associativity).

(** The transport calls [on_notify] on each frame; the holder is shared
    by the calls.  An exception of the callback would end in the event
    loop, not in the session. *)
Fixpoint deliver (last_mode : LastMode) (frames : list (list byte))
  : LastMode * list string :=
  match frames with
  | [] => (last_mode, [])
  | data :: rest =>
      match on_notify last_mode data with
      | Ret (lm, out) => let (lm', out') := deliver lm rest in (lm', out ++ out')
      | Raise _ => deliver last_mode rest
      end
  end.

(** [while True: await asyncio.sleep(3600)], from the [i]-th sleep on. *)
Fixpoint listen (fuel : nat) (env : Env) (i : nat) (last_mode : LastMode)
  : prog unit :=
  match fuel with
  | O => ([], None)
  | S fuel' =>
      let (frames, answer) := sleeps env i in
      let (lm, out) := deliver last_mode frames in
      match answer with
      | Ret _ =>
          let (t, o) := listen fuel' env (S i) lm in
          (Sleep :: map StdoutWrite out ++ t, o)
      | Raise e => (Sleep :: map StdoutWrite out, Some (Raise e))
      end
  end.

(** [live_hud(client)] *)
Definition live_hud (fuel : nat) (env : Env) : prog unit :=
  let last_mode := last_mode_init in
  _ <-- call (StartNotify FFF2_UUID) (start_notify env) ;;
  try_finally
    (try_except (listen fuel env 0 last_mode)
                is_KeyboardInterrupt (fun _ => ret tt))
    (_ <-- try_except (call (StopNotify FFF2_UUID) (stop_notify env))
                      is_Exception (fun _ => ret tt) ;;
     call (StdoutWrite LF) (Ret tt)).

(** [connect_and_run(device)] *)
Definition connect_and_run (fuel : nat) (env : Env) (device : BLEDevice)
  : prog unit :=
  _ <-- call (Print (MsgConnecting (address device))) (Ret tt) ;;
  async_with (call (Connect (address device)) (aenter env))
             (call Disconnect (aexit env))
    (ok <-- try_except (call IsConnected (is_connected_first env))
                       is_Exception
                       (fun _ => call IsConnected (is_connected_again env)) ;;
     if negb ok then call (Print MsgCouldNotConnect) (Ret tt)
     else
       _ <-- call (Print MsgConnected) (Ret tt) ;;
       live_hud fuel env).


(** The strings a run wrote to [sys.stdout]. *)
Fixpoint writes (t : list event) : list string :=
  match t with
  | [] => []
  | StdoutWrite s :: t' => s :: writes t'
  | _ :: t' => writes t'
  end.

(** How many times the connection was released. *)
Fixpoint releases (t : list event) : nat :=
  match t with
  | [] => 0
  | Disconnect :: t' => S (releases t')
  | _ :: t' => releases t'
  end.

(** How many times the unsubscribe call was made. *)
Fixpoint unsubscribes (t : list event) : nat :=
  match t with
  | [] => 0
  | StopNotify _ :: t' => S (unsubscribes t')
  | _ :: t' => unsubscribes t'
  end.

(** The connection-status check of [connect_and_run] says "connected". *)
Definition check_ok (env : Env) : Prop :=
  is_connected_first env = Ret true \/
  (exists c, is_connected_first env = Raise (Exception c)) /\
  is_connected_again env = Ret true.

(** The wait ends in the [k]-th sleep, where [e] is raised: the interrupt
    as [KeyboardInterrupt], or as the [CancelledError] of a cancelled
    task. *)
Definition interrupted_at (env : Env) (k : nat) (e : exn) : Prop :=
  (forall i, i < k -> snd (sleeps env i) = Ret tt) /\
  snd (sleeps env k) = Raise e.

(** What [connect_and_run] hands back once the wait was ended by [e] and
    the unsubscribe step is over: the exception of [__aexit__] if it
    raised, else nothing for [KeyboardInterrupt] and [e] itself
    otherwise. *)
Definition closing_result (env : Env) (e : exn) : res unit :=
  match aexit env with
  | Raise e2 => Raise e2
  | Ret _ => if is_KeyboardInterrupt e then Ret tt else Raise e
  end.

(** Unsubscribing works or fails with an error. *)
Definition stop_notify_ok_or_error (env : Env) : Prop :=
  stop_notify env = Ret tt \/ exists c, stop_notify env = Raise (Exception c).

(** The frames delivered during the sleeps [i], [i+1], ..., [i+n-1]. *)
Fixpoint frames_from (env : Env) (i n : nat) : list (list byte) :=
  match n with
  | O => []
  | S n' => fst (sleeps env i) ++ frames_from env (S i) n'
  end.


(** A session in which the status check succeeds, one ECO frame arrives
    during the first sleep, and the interrupt arrives in the second sleep,
    with an unsubscribe call that fails. *)
Definition env_unsubscribe_fails : Env := {|
  aenter := Ret tt;
  is_connected_first := Ret true;
  is_connected_again := Ret true;
  start_notify := Ret tt;
  sleeps := fun i =>
    match i with
    | O => ([[x00; x00; x00; x00; x00; x01; x00]], Ret tt)
    | _ => ([], Raise KeyboardInterrupt)
    end;
  stop_notify := Raise (Exception "BleakError");
  aexit := Ret tt
|}.

(** A connection attempt that times out: [__aenter__] raises. *)
Definition env_connect_timeout : Env := {|
  aenter := Raise (Exception "TimeoutError");
  is_connected_first := Ret true;
  is_connected_again := Ret true;
  start_notify := Ret tt;
  sleeps := fun _ => ([], Raise KeyboardInterrupt);
  stop_notify := Ret tt;
  aexit := Ret tt
|}.

End Session.

(* ================================================================== *)
(** ** The [str] methods used by [main] and by the table of the scanner *)
(* ================================================================== *)

Module PyStr.

Local Open Scope string_scope.

(** A [str] whose characters are all below U+0100 is modelled by the
    [string] of its characters, one [ascii] per character.  The character
    classes below are those of Python for these 256 characters. *)

(** [c.isspace()] *)
Definition isspace (c : ascii) : bool :=
  let n := nat_of_ascii c in
  ((9 <=? n) && (n <=? 13) || (28 <=? n) && (n <=? 32) || (n =? 133) || (n =? 160))%nat.

Fixpoint lstrip (s : string) : string :=
  match s with
  | EmptyString => EmptyString
  | String c s' => if isspace c then lstrip s' else s
  end.

Fixpoint rstrip (s : string) : string :=
  match s with
  | EmptyString => EmptyString
  | String c s' =>
      match rstrip s' with
      | EmptyString => if isspace c then EmptyString else String c EmptyString
      | r => String c r
      end
  end.

(** [s.strip()] *)
Definition strip (s : string) : string := rstrip (lstrip s).

Definition lower_char (c : ascii) : ascii :=
  let n := nat_of_ascii c in
  if ((65 <=? n) && (n <=? 90) ||
      (192 <=? n) && (n <=? 222) && negb (n =? 215))%nat
  then ascii_of_nat (n + 32)
  else c.

(** [s.lower()] *)
Fixpoint lower (s : string) : string :=
  match s with
  | EmptyString => EmptyString
  | String c s' => String (lower_char c) (lower s')
  end.

Fixpoint all_chars (p : ascii -> bool) (s : string) : bool :=
  match s with
  | EmptyString => true
  | String c s' => p c && all_chars p s'
  end.

(** The characters on which [isdigit] holds: the ten decimal digits and
    the superscripts two, three and one. *)
Definition isdigit_char (c : ascii) : bool :=
  let n := nat_of_ascii c in
  ((48 <=? n) && (n <=? 57) || (n =? 178) || (n =? 179) || (n =? 185))%nat.

(** [s.isdigit()] *)
Definition isdigit (s : string) : bool :=
  match s with
  | EmptyString => false
  | _ => all_chars isdigit_char s
  end.

(** The characters [int] reads as decimal digits. *)
Definition is_decimal (c : ascii) : bool :=
  let n := nat_of_ascii c in ((48 <=? n) && (n <=? 57))%nat.

Definition digit_value (c : ascii) : nat := nat_of_ascii c - 48.

Fixpoint int_acc (s : string) (acc : nat) : nat :=
  match s with
  | EmptyString => acc
  | String c s' => int_acc s' (10 * acc + digit_value c)
  end.

(** The default of [sys.get_int_max_str_digits()]. *)
Definition int_max_str_digits : nat := 4300.

(** [int(s)] on a [str] for which [s.isdigit()] holds: a superscript is
    no decimal digit, and more digits than the limit are refused. *)
Definition py_int (s : string) : res nat :=
  match s with
  | EmptyString => Raise (Exception "ValueError")
  | _ =>
      if negb (all_chars is_decimal s) then Raise (Exception "ValueError")
      else if (int_max_str_digits <? String.length s)%nat
           then Raise (Exception "ValueError")
           else Ret (int_acc s 0)
  end.

(** [str(n)] for an [int] that is not negative. *)
Definition py_str (n : nat) : string :=
  DecimalString.NilEmpty.string_of_uint (Nat.to_uint n).

(** [str(z)] for an [int]. *)
Definition str_Z (z : Z) : string :=
  if (z <? 0)%Z then String "-"%char (py_str (Z.abs_nat z))
  else py_str (Z.abs_nat z).

Fixpoint blanks (n : nat) : string :=
  match n with
  | O => EmptyString
  | S n' => String " "%char (blanks n')
  end.

(** The format specifications [:<w] and [:>w] on a [str]. *)
Definition ljust (w : nat) (s : string) : string :=
  s ++ blanks (w - String.length s).

Definition rjust (w : nat) (s : string) : string :=
  blanks (w - String.length s) ++ s.

(** [s[:n]] *)
Fixpoint take (n : nat) (s : string) : string :=
  match n, s with
  | S n', String c s' => String c (take n' s')
  | _, _ => EmptyString
  end.

(** A superscript two, for which [isdigit] holds and [int] fails. *)
Definition superscript_two : string := String (ascii_of_nat 178) EmptyString.

End PyStr.

(* ================================================================== *)
(** ** The table printed by [scan_devices] *)
(* ================================================================== *)

Module Table.

Import Scanner PyStr.

Local Open Scope string_scope.

Definition RULE : string :=
  "-- ------------------------ ------------------------------------ -----".

(** [(d.name or "(no name)")[:24]] *)
Definition name_shown (d : BLEDevice) : string :=
  take 24 (match name d with
           | None => "(no name)"
           | Some EmptyString => "(no name)"
           | Some s => s
           end).

(** [str(getattr(d, "rssi", ""))]: [other] is what [str] gives for an
    attribute that is no [int] (the empty string when it is missing). *)
Definition rssi_shown (other : string) (d : BLEDevice) : string :=
  match rssi d with
  | Some v => str_Z v
  | None => other
  end.

(** One line of the table: [f"{i:>2} {name:<24} {d.address:<36}
    {str(rssi):>5}"]. *)
Definition table_row (other : string) (i : nat) (d : BLEDevice) : string :=
  rjust 2 (py_str i) ++ " " ++ ljust 24 (name_shown d) ++ " " ++
  ljust 36 (address d) ++ " " ++ rjust 5 (rssi_shown other d).

(** The lines for [enumerate(devices, i)]. *)
Fixpoint table_rows (other : string) (i : nat) (devices : list BLEDevice)
  : list string :=
  match devices with
  | [] => []
  | d :: rest => table_row other i d :: table_rows other (S i) rest
  end.

Definition dev_long_name : BLEDevice :=
  {| address := "C8:47:8C:00:11:22";
     name := Some "KuKirin G4 electric scooter (garage)";
     rssi := Some (-58)%Z |}.

End Table.

(* ================================================================== *)
(** ** The loop of [main] *)
(* ================================================================== *)

Module Main.

Import Hud Scanner Session PyStr.

(** What one pass of the loop does with the line the user typed. *)
Inductive choice : Type :=
| Quit
| Rescan
| WrongInput
| OutOfRange
| Pick (i : nat).

(** The tests of the loop body on [s = input(...).strip().lower()], for
    [len(devices) = ndevices]; [int(s)] may raise. *)
Definition choose (ndevices : nat) (typed : string) : res choice :=
  let s := lower (strip typed) in
  if String.eqb s "q"%string then Ret Quit
  else if String.eqb s "r"%string then Ret Rescan
  else if negb (isdigit s) then Ret WrongInput
  else
    bind (py_int s) (fun n =>
    let i := (Z.of_nat n - 1)%Z in
    if negb ((0 <=? i)%Z && (i <? Z.of_nat ndevices)%Z) then Ret OutOfRange
    else Ret (Pick (Z.to_nat i))).






(** Every character of [s] is white space. *)
Definition all_space (s : string) : Prop := all_chars isspace s = true.

End Main.

(* ================================================================== *)
(** ** Vocabulary for the further properties *)
(* ================================================================== *)

Module Render.

Import Hud.

(** The modes a sequence of frames carries, frame after frame. *)
Fixpoint decoded (frames : list (list byte)) : list Mode :=
  match frames with
  | [] => []
  | data :: rest =>
      match spec_decode data with
      | Some m => m :: decoded rest
      | None => decoded rest
      end
  end.

(** The modes of a sequence that differ from the mode before them, the
    first one being compared with what the holder has. *)
Fixpoint changes (held : option string) (modes : list Mode) : list Mode :=
  match modes with
  | [] => []
  | m :: rest =>
      if ne_str held (mode_name m)
      then m :: changes (Some (mode_name m)) rest
      else changes held rest
  end.

(** What the holder has after a sequence of modes. *)
Definition last_held (held : option string) (modes : list Mode) : option string :=
  fold_left (fun _ m => Some (mode_name m)) modes held.

(** No two neighbours of a list are equal. *)
Definition no_repeat {A} (l : list A) : Prop :=
  forall i a b, nth_error l i = Some a -> nth_error l (S i) = Some b -> a <> b.

End Render.

Module ScannerCases.

Import Scanner.

Local Open Scope Z_scope.

(** The devices whose sort key is [v]. *)
Definition with_key (v : Z) (l : list BLEDevice) : list BLEDevice :=
  filter (fun d => rssi_of d =? v) l.

Local Open Scope string_scope.

Definition dev_E : BLEDevice := {| address := "E"; name := Some "scooter"; rssi := Some (-70) |}.

(** A later advertisement of the address of [dev_A], with a weaker
    signal. *)
Definition dev_A_again : BLEDevice := {| address := "A"; name := None; rssi := Some (-90) |}.

End ScannerCases.

Module SessionCases.

Import Hud Scanner Session.

(** The connection-status check of [connect_and_run] says "not
    connected". *)
Definition check_fails (env : Env) : Prop :=
  is_connected_first env = Ret false \/
  (exists c, is_connected_first env = Raise (Exception c)) /\
  is_connected_again env = Ret false.

(** No sleep is ever interrupted. *)
Definition never_interrupted (env : Env) : Prop :=
  forall i, snd (sleeps env i) = Ret tt.

(** What leaves the [async with] block when its body ended with [r]: the
    exception of [__aexit__] if it raised, else [r]. *)
Definition released (env : Env) (r : res unit) : res unit :=
  match aexit env with
  | Raise e2 => Raise e2
  | Ret _ => r
  end.

(** How [live_hud] ends once the wait was ended by [e]: the [finally]
    block swallows an [Exception] of the unsubscribe call and lets any
    other exception of it through, in place of [e]. *)
Definition hud_result (env : Env) (e : exn) : res unit :=
  match stop_notify env with
  | Raise e2 =>
      if is_Exception e2
      then (if is_KeyboardInterrupt e then Ret tt else Raise e)
      else Raise e2
  | Ret _ => if is_KeyboardInterrupt e then Ret tt else Raise e
  end.

(** Whether the [finally] block gets to its newline. *)
Definition newline_written (env : Env) : list event :=
  match stop_notify env with
  | Raise e2 => if is_Exception e2 then [StdoutWrite LF] else []
  | Ret _ => [StdoutWrite LF]
  end.

(** How many times the subscribe call was made. *)
Fixpoint subscribes (t : list event) : nat :=
  match t with
  | [] => 0
  | StartNotify _ :: t' => S (subscribes t')
  | _ :: t' => subscribes t'
  end.

Definition frame_of (b : byte) : list byte := [x00; x00; x00; x00; x00; b; x00].

(** The status check answers "not connected". *)
Definition env_not_connected : Env := {|
  aenter := Ret tt;
  is_connected_first := Raise (Exception "AttributeError");
  is_connected_again := Ret false;
  start_notify := Ret tt;
  sleeps := fun _ => ([], Ret tt);
  stop_notify := Ret tt;
  aexit := Ret tt
|}.

(** The subscribe call fails. *)
Definition env_subscribe_fails : Env := {|
  aenter := Ret tt;
  is_connected_first := Ret true;
  is_connected_again := Ret true;
  start_notify := Raise (Exception "BleakError");
  sleeps := fun _ => ([], Ret tt);
  stop_notify := Ret tt;
  aexit := Ret tt
|}.

(** The task is cancelled in the first sleep, and once more during the
    unsubscribe call. *)
Definition env_cancelled_twice : Env := {|
  aenter := Ret tt;
  is_connected_first := Ret true;
  is_connected_again := Ret true;
  start_notify := Ret tt;
  sleeps := fun _ => ([frame_of x02], Raise (BaseOnly "CancelledError"));
  stop_notify := Raise (BaseOnly "CancelledError");
  aexit := Ret tt
|}.

(** A session nobody interrupts: a RACE frame arrives in every sleep. *)
Definition env_quiet : Env := {|
  aenter := Ret tt;
  is_connected_first := Ret true;
  is_connected_again := Ret true;
  start_notify := Ret tt;
  sleeps := fun _ => ([frame_of x03], Ret tt);
  stop_notify := Ret tt;
  aexit := Ret tt
|}.

End SessionCases.

(* ================================================================== *)
(** ** Facts about the notification callback *)
(* ================================================================== *)

Import Hud.

Section HudFacts.

Local Open Scope string_scope.

Lemma to_N_inj (a b : byte) : Byte.to_N a = Byte.to_N b -> a = b.
Proof.
  intro H.
  pose proof (Byte.of_to_N a) as Ha.
  rewrite H, Byte.of_to_N in Ha.
  congruence.
Qed.

Lemma to_N_eqb (a b : byte) :
  N.eqb (Byte.to_N a) (Byte.to_N b) = Byte.eqb a b.
Proof.
  destruct (Byte.eqb a b) eqn:E.
  - apply Byte.byte_dec_bl in E. subst. apply N.eqb_refl.
  - apply Byte.eqb_false in E. apply N.eqb_neq.
    intro H. apply E. now apply to_N_inj.
Qed.

Lemma nth_error_in_range {A} (l : list A) (i : nat) :
  i < List.length l -> exists x, nth_error l i = Some x.
Proof.
  intro H. destruct (nth_error l i) as [x|] eqn:E.
  - now exists x.
  - apply nth_error_None in E. lia.
Qed.

Lemma py_not_short {A} (data : list A) :
  py_not data = true -> List.length data = 0.
Proof. destruct data; [reflexivity | discriminate]. Qed.

(** The code against the pipeline of the specification: [on_notify]
    never raises, and it is decode-then-observe. *)
Lemma on_notify_pipeline (last_mode : LastMode) (data : list byte) :
  on_notify last_mode data = Ret (spec_pipeline last_mode data).
Proof.
  unfold on_notify, spec_pipeline, spec_decode.
  destruct (py_not data) eqn:Hemp.
  - apply py_not_short in Hemp. rewrite Hemp. reflexivity.
  - change (Nat.max GATE_OFFSET MODE_OFFSET) with 6.
    destruct (Nat.leb_spec (List.length data) 6) as [Hle|Hgt].
    + destruct (Nat.ltb_spec (List.length data) 7) as [_|Hc]; [reflexivity | lia].
    + destruct (Nat.ltb_spec (List.length data) 7) as [Hc|_]; [lia|].
      destruct (@nth_error_in_range _ data 6 ltac:(lia)) as [g Hg].
      destruct (@nth_error_in_range _ data 5 ltac:(lia)) as [b Hb].
      unfold getitem, GATE_OFFSET, MODE_OFFSET, GATE_VALUE.
      rewrite Hg, Hb. cbn [bind].
      change 0%N with (Byte.to_N x00).
      change 1%N with (Byte.to_N x01).
      change 2%N with (Byte.to_N x02).
      change 3%N with (Byte.to_N x03).
      rewrite !to_N_eqb.
      destruct (Byte.eqb g x00); cbn [negb]; [|reflexivity].
      unfold spec_observe.
      destruct (Byte.eqb b x01).
      { cbn [mode_name mode_line]. now destruct (ne_str (val last_mode) "ECO"). }
      destruct (Byte.eqb b x02).
      { cbn [mode_name mode_line]. now destruct (ne_str (val last_mode) "SPORT"). }
      destruct (Byte.eqb b x03).
      { cbn [mode_name mode_line]. now destruct (ne_str (val last_mode) "RACE"). }
      reflexivity.
Qed.

Lemma on_notify_total (last_mode : LastMode) (data : list byte) :
  exists r, on_notify last_mode data = Ret r.
Proof. eexists. apply on_notify_pipeline. Qed.

(** The decoder on a frame that is long enough. *)
Lemma spec_decode_long (data : list byte) (g b : byte) :
  7 <= List.length data ->
  nth_error data 6 = Some g -> nth_error data 5 = Some b ->
  spec_decode data =
    if negb (Byte.eqb g x00) then None
    else if Byte.eqb b x01 then Some ECO
    else if Byte.eqb b x02 then Some SPORT
    else if Byte.eqb b x03 then Some RACE
    else None.
Proof.
  intros Hlen Hg Hb. unfold spec_decode.
  destruct (Nat.ltb_spec (List.length data) 7) as [Hc|_]; [lia|].
  now rewrite Hg, Hb.
Qed.

Lemma spec_decode_short (data : list byte) :
  List.length data < 7 -> spec_decode data = None.
Proof.
  intro H. unfold spec_decode.
  destruct (Nat.ltb_spec (List.length data) 7) as [_|Hc]; [reflexivity | lia].
Qed.

Lemma spec_decode_carries (m : Mode) (data : list byte) :
  carries m data -> spec_decode data = Some m.
Proof.
  intros (Hlen & Hg & Hb).
  rewrite (@spec_decode_long data _ _ Hlen Hg Hb). now destruct m.
Qed.

Lemma carries_spec_decode (m : Mode) (data : list byte) :
  spec_decode data = Some m -> carries m data.
Proof.
  unfold spec_decode, carries.
  destruct (Nat.ltb_spec (List.length data) 7) as [Hc|Hlen]; [discriminate|].
  destruct (nth_error data 6) as [g|]; [|discriminate].
  destruct (nth_error data 5) as [b|]; [|discriminate].
  destruct (Byte.eqb g x00) eqn:Eg; cbn [negb]; [|discriminate].
  apply Byte.byte_dec_bl in Eg. subst g.
  destruct (Byte.eqb b x01) eqn:E1.
  { apply Byte.byte_dec_bl in E1. intro H. inversion H. subst. auto. }
  destruct (Byte.eqb b x02) eqn:E2.
  { apply Byte.byte_dec_bl in E2. intro H. inversion H. subst. auto. }
  destruct (Byte.eqb b x03) eqn:E3.
  { apply Byte.byte_dec_bl in E3. intro H. inversion H. subst. auto. }
  discriminate.
Qed.

Lemma on_notify_carries (last_mode : LastMode) (m : Mode) (data : list byte) :
  carries m data ->
  on_notify last_mode data = Ret (spec_observe last_mode m).
Proof.
  intro H. rewrite on_notify_pipeline. unfold spec_pipeline.
  now rewrite (@spec_decode_carries m data H).
Qed.

End HudFacts.

Section HudClaims.

Local Open Scope string_scope.

Lemma ne_str_true (v : option string) (s : string) :
  v <> Some s -> ne_str v s = true.
Proof.
  destruct v as [t|]; cbn; [|reflexivity].
  intro H. apply negb_true_iff, String.eqb_neq. congruence.
Qed.

Lemma ne_str_false (v : option string) (s : string) :
  v = Some s -> ne_str v s = false.
Proof.
  intros ->. cbn. now rewrite String.eqb_refl.
Qed.

Lemma ne_str_false_inv (v : option string) (s : string) :
  ne_str v s = false -> v = Some s.
Proof.
  destruct v as [t|]; cbn; [|discriminate].
  intro H. apply negb_false_iff, String.eqb_eq in H. now subst.
Qed.

Lemma no_mode_spec_decode (data : list byte) :
  no_mode data <-> spec_decode data = None.
Proof.
  split.
  - intros [Hs | [Hg | Hb]].
    + now apply spec_decode_short.
    + destruct (Nat.lt_ge_cases (List.length data) 7) as [Hs|Hl];
        [now apply spec_decode_short|].
      destruct (@nth_error_in_range _ data 6 ltac:(lia)) as [g Eg].
      destruct (@nth_error_in_range _ data 5 ltac:(lia)) as [b Eb].
      rewrite (@spec_decode_long data g b Hl Eg Eb).
      destruct (Byte.eqb g x00) eqn:E; [|reflexivity].
      apply Byte.byte_dec_bl in E. congruence.
    + destruct (spec_decode data) as [m|] eqn:E; [|reflexivity].
      apply carries_spec_decode in E. destruct E as (_ & _ & E).
      now apply Hb in E.
  - intro H. unfold no_mode.
    destruct (Nat.lt_ge_cases (List.length data) 7) as [Hs|Hl]; [now left|].
    right.
    destruct (Byte.byte_eq_dec
                (match nth_error data 6 with Some g => g | None => x01 end) x00)
      as [Eg|Ng].
    + right. intros m Hm.
      destruct (@nth_error_in_range _ data 6 ltac:(lia)) as [g Eg'].
      rewrite Eg' in Eg. subst g.
      assert (carries m data) as Hc by (now repeat split).
      apply spec_decode_carries in Hc. congruence.
    + left. intro Hg. rewrite Hg in Ng. now apply Ng.
Qed.

Lemma notify_all_carries (modes : list Mode) :
  forall (frames : list (list byte)) (last_mode : LastMode),
    Forall2 carries modes frames ->
    notify_all last_mode frames = Ret (observe_all last_mode modes).
Proof.
  induction modes as [|m modes IH]; intros frames last_mode H; inversion H; subst.
  - reflexivity.
  - cbn [notify_all observe_all].
    rewrite (@on_notify_carries last_mode m y H2). cbn [bind].
    destruct (spec_observe last_mode m) as [s out]. cbn [fst snd].
    rewrite (IH _ s H4). cbn [bind].
    now destruct (observe_all s modes).
Qed.

Lemma spec_observe_same (state : LastMode) (m : Mode) :
  val state = Some (mode_name m) -> spec_observe state m = (state, []).
Proof.
  intro H. unfold spec_observe. now rewrite (@ne_str_false _ _ H).
Qed.

Lemma observe_all_same (m : Mode) (n : nat) (state : LastMode) :
  val state = Some (mode_name m) ->
  observe_all state (repeat m n) = (state, []).
Proof.
  intro H. induction n as [|n IH]; [reflexivity|].
  cbn [repeat observe_all]. rewrite (@spec_observe_same state m H). now rewrite IH.
Qed.

Lemma Forall_carries_repeat (m : Mode) (frames : list (list byte)) :
  Forall (carries m) frames ->
  Forall2 carries (repeat m (List.length frames)) frames.
Proof.
  induction 1; cbn; constructor; auto.
Qed.

End HudClaims.

Lemma on_notify_None (last_mode : LastMode) (data : list byte) :
  spec_decode data = None -> on_notify last_mode data = Ret (last_mode, []).
Proof.
  intro H. rewrite on_notify_pipeline. unfold spec_pipeline. now rewrite H.
Qed.

(** The callback agrees with the table [MODE_MAP] of the script, which
    [on_notify] itself does not consult. *)
Lemma decode_agrees_MODE_MAP (data : list byte) (b : byte) :
  7 <= List.length data ->
  nth_error data 6 = Some x00 -> nth_error data 5 = Some b ->
  option_map mode_name (spec_decode data) = dict_get MODE_MAP (Byte.to_N b).
Proof.
  intros Hlen Hg Hb. rewrite (@spec_decode_long data x00 b Hlen Hg Hb).
  destruct (Byte.byte_eq_dec b x01) as [->|N1]; [reflexivity|].
  destruct (Byte.byte_eq_dec b x02) as [->|N2]; [reflexivity|].
  destruct (Byte.byte_eq_dec b x03) as [->|N3]; [reflexivity|].
  assert (forall c, b <> c -> Byte.eqb b c = false) as Hb'.
  { intros c Hc. destruct (Byte.eqb b c) eqn:E; [|reflexivity].
    now apply Byte.byte_dec_bl in E. }
  assert (forall c, b <> c -> N.eqb (Byte.to_N c) (Byte.to_N b) = false) as Hn.
  { intros c Hc. apply N.eqb_neq. intro E. apply to_N_inj in E. congruence. }
  rewrite (Hb' _ N1), (Hb' _ N2), (Hb' _ N3).
  cbn [Byte.eqb negb dict_get MODE_MAP option_map].
  change 1%N with (Byte.to_N x01).
  change 2%N with (Byte.to_N x02).
  change 3%N with (Byte.to_N x03).
  now rewrite (Hn _ N1), (Hn _ N2), (Hn _ N3).
Qed.

(** C1. On a frame of at least 7 bytes whose byte at offset 6 is 0x00, the
    callback decodes the byte at offset 5: 0x01 is ECO, 0x02 is SPORT, 0x03
    is RACE (the line of that mode is written unless the holder already has
    it, and the holder then has it), and every other value is no mode
    (nothing written, holder unchanged).  In particular a 7-byte frame
    ending in 0x02, 0x00 decodes to SPORT, and from the fresh holder the
    SPORT line is written. *)
Theorem frame_decoder_modes :
  (forall (last_mode : LastMode) (data : list byte) (b : byte),
      7 <= List.length data ->
      nth_error data 6 = Some x00 ->
      nth_error data 5 = Some b ->
      (b = x01 ->
       spec_decode data = Some ECO /\
       on_notify last_mode data =
         Ret (if ne_str (val last_mode) "ECO"
              then ({| val := Some "ECO"%string |}, [ECO_LINE])
              else (last_mode, []))) /\
      (b = x02 ->
       spec_decode data = Some SPORT /\
       on_notify last_mode data =
         Ret (if ne_str (val last_mode) "SPORT"
              then ({| val := Some "SPORT"%string |}, [SPORT_LINE])
              else (last_mode, []))) /\
      (b = x03 ->
       spec_decode data = Some RACE /\
       on_notify last_mode data =
         Ret (if ne_str (val last_mode) "RACE"
              then ({| val := Some "RACE"%string |}, [RACE_LINE])
              else (last_mode, []))) /\
      (b <> x01 -> b <> x02 -> b <> x03 ->
       spec_decode data = None /\
       on_notify last_mode data = Ret (last_mode, []))) /\
  (forall a0 a1 a2 a3 a4 : byte,
      spec_decode [a0; a1; a2; a3; a4; x02; x00] = Some SPORT /\
      on_notify last_mode_init [a0; a1; a2; a3; a4; x02; x00] =
        Ret ({| val := Some "SPORT"%string |}, [SPORT_LINE])).
Proof.
  split.
  - intros last_mode data b Hlen Hg Hb.
    assert (forall m, b = mode_byte m ->
                      spec_decode data = Some m /\
                      on_notify last_mode data = Ret (spec_observe last_mode m))
      as Hmode.
    { intros m ->. assert (carries m data) as Hc by (now repeat split).
      split; [now apply spec_decode_carries | now apply on_notify_carries]. }
    assert (b <> x01 -> b <> x02 -> b <> x03 -> spec_decode data = None) as Hnone.
    { intros N1 N2 N3. apply no_mode_spec_decode. right. right.
      intros m Hm. rewrite Hb in Hm. destruct m; cbn in Hm; congruence. }
    split; [|split; [|split]].
    + intros ->. exact (Hmode ECO eq_refl).
    + intros ->. exact (Hmode SPORT eq_refl).
    + intros ->. exact (Hmode RACE eq_refl).
    + intros N1 N2 N3. split; [|apply on_notify_None]; now apply Hnone.
  - intros. split; reflexivity.
Qed.

Lemma frame_decoder_modes_witness :
  on_notify {| val := Some "SPORT"%string |} [x10; x11; x12; x13; x14; x03; x00; x55] =
    Ret ({| val := Some "RACE"%string |}, [RACE_LINE]).
Proof.
  apply (proj1 frame_decoder_modes
           {| val := Some "SPORT"%string |}
           [x10; x11; x12; x13; x14; x03; x00; x55] x03);
    [cbn; lia | reflexivity | reflexivity | reflexivity].
Defined.

(** C2. On every byte sequence shorter than 7 bytes, the empty one
    included, the decoder gives no mode and the callback writes nothing and
    leaves the holder as it was. *)
Theorem short_frame_no_mode (last_mode : LastMode) (data : list byte) :
  List.length data < 7 ->
  spec_decode data = None /\
  on_notify last_mode data = Ret (last_mode, []).
Proof.
  intro H. split; [|apply on_notify_None]; now apply spec_decode_short.
Qed.

Lemma short_frame_no_mode_witness :
  spec_decode [x00; x00; x00; x00; x00; x01] = None /\
  on_notify {| val := Some "RACE"%string |} [x00; x00; x00; x00; x00; x01] =
    Ret ({| val := Some "RACE"%string |}, []).
Proof.
  apply (@short_frame_no_mode {| val := Some "RACE"%string |}
           [x00; x00; x00; x00; x00; x01]).
  cbn. lia.
Defined.

(** C3. On every frame of at least 7 bytes whose byte at offset 6 is not
    0x00, the decoder gives no mode whatever the byte at offset 5 is, and the
    callback writes nothing and leaves the holder as it was. *)
Theorem gate_nonzero_no_mode (last_mode : LastMode) (data : list byte) (g : byte) :
  7 <= List.length data ->
  nth_error data 6 = Some g ->
  g <> x00 ->
  spec_decode data = None /\
  on_notify last_mode data = Ret (last_mode, []).
Proof.
  intros Hlen Hg Hne.
  assert (spec_decode data = None) as H.
  { apply no_mode_spec_decode. right. left. congruence. }
  split; [assumption | now apply on_notify_None].
Qed.

Lemma gate_nonzero_no_mode_witness :
  spec_decode [x00; x00; x00; x00; x00; x02; x01] = None /\
  on_notify last_mode_init [x00; x00; x00; x00; x00; x02; x01] =
    Ret (last_mode_init, []).
Proof.
  apply (@gate_nonzero_no_mode last_mode_init
           [x00; x00; x00; x00; x00; x02; x01] x01);
    [cbn; lia | reflexivity | discriminate].
Defined.

(** C4. Feeding the same mode [m] to the holder N >= 1 times in a row
    (N frames that carry [m], callback after callback, from any holder)
    writes the line of [m] exactly once when the holder did not have [m],
    and writes nothing when it had; the holder ends with [m]. *)
Theorem observe_idempotent
        (m : Mode) (last_mode : LastMode) (frames : list (list byte)) :
  1 <= List.length frames ->
  Forall (carries m) frames ->
  (val last_mode <> Some (mode_name m) ->
   notify_all last_mode frames =
     Ret ({| val := Some (mode_name m) |}, [mode_line m])) /\
  (val last_mode = Some (mode_name m) ->
   notify_all last_mode frames =
     Ret ({| val := Some (mode_name m) |}, [])).
Proof.
  intros Hn Hall.
  rewrite (@notify_all_carries _ frames last_mode (Forall_carries_repeat Hall)).
  destruct frames as [|data rest]; [cbn in Hn; lia|].
  cbn [List.length repeat observe_all]. split; intro H.
  - unfold spec_observe. rewrite (@ne_str_true _ _ H).
    now rewrite (@observe_all_same m (List.length rest)
                   {| val := Some (mode_name m) |} eq_refl).
  - rewrite (@spec_observe_same last_mode m H).
    rewrite (@observe_all_same m (List.length rest) last_mode H).
    destruct last_mode as [v]. cbn in H. now subst.
Qed.

Lemma observe_idempotent_witness :
  notify_all last_mode_init
             (repeat [x00; x00; x00; x00; x00; x01; x00] 5) =
    Ret ({| val := Some "ECO"%string |}, [ECO_LINE]).
Proof.
  apply (@observe_idempotent ECO last_mode_init
           (repeat [x00; x00; x00; x00; x00; x01; x00] 5)).
  - cbn. lia.
  - repeat constructor.
  - discriminate.
Defined.

(** C5. From the fresh holder, frames carrying ECO, ECO, SPORT, SPORT,
    SPORT, RACE, ECO make the callback write exactly four lines, in the
    order ECO, SPORT, RACE, ECO. *)
Theorem observe_sequence (frames : list (list byte)) :
  Forall2 carries [ECO; ECO; SPORT; SPORT; SPORT; RACE; ECO] frames ->
  notify_all last_mode_init frames =
    Ret ({| val := Some "ECO"%string |},
         [ECO_LINE; SPORT_LINE; RACE_LINE; ECO_LINE]).
Proof.
  intro H. now rewrite (@notify_all_carries _ frames last_mode_init H).
Qed.

Lemma observe_sequence_witness :
  notify_all last_mode_init
    [[x00; x00; x00; x00; x00; x01; x00];
     [x01; x02; x03; x04; x05; x01; x00; x09];
     [x00; x00; x00; x00; x00; x02; x00];
     [x00; x00; x00; x00; x00; x02; x00];
     [xff; xff; xff; xff; xff; x02; x00];
     [x00; x00; x00; x00; x00; x03; x00];
     [x00; x00; x00; x00; x00; x01; x00]] =
    Ret ({| val := Some "ECO"%string |},
         [ECO_LINE; SPORT_LINE; RACE_LINE; ECO_LINE]).
Proof.
  apply observe_sequence.
  repeat constructor.
Defined.

(** C9. A frame that carries no mode (too short, gate byte at offset 6 not
    0x00, or a byte at offset 5 that is none of the three codes) leaves the
    holder exactly as it was, and nothing is written. *)
Theorem non_mode_frame_keeps_state (last_mode : LastMode) (data : list byte) :
  no_mode data ->
  spec_decode data = None /\
  on_notify last_mode data = Ret (last_mode, []).
Proof.
  intro H. apply no_mode_spec_decode in H.
  split; [assumption | now apply on_notify_None].
Qed.

Lemma non_mode_frame_keeps_state_witness :
  spec_decode [x00; x00; x00; x00; x00; x07; x00] = None /\
  on_notify {| val := Some "SPORT"%string |} [x00; x00; x00; x00; x00; x07; x00] =
    Ret ({| val := Some "SPORT"%string |}, []).
Proof.
  apply (@non_mode_frame_keeps_state {| val := Some "SPORT"%string |}
           [x00; x00; x00; x00; x00; x07; x00]).
  right. right. intros m. destruct m; discriminate.
Defined.

Lemma spec_observe_holder_ok (state : LastMode) (m : Mode) :
  holder_ok state -> holder_ok (fst (spec_observe state m)).
Proof.
  intro H. unfold spec_observe.
  destruct (ne_str (val state) (mode_name m)); [|exact H].
  unfold holder_ok. destruct m; cbn; auto.
Qed.

Lemma on_notify_holder_ok (last_mode : LastMode) (data : list byte) :
  holder_ok last_mode ->
  exists lm out, on_notify last_mode data = Ret (lm, out) /\ holder_ok lm.
Proof.
  intro H. rewrite on_notify_pipeline. unfold spec_pipeline.
  destruct (spec_decode data) as [m|].
  - pose proof (@spec_observe_holder_ok last_mode m H) as Hok.
    destruct (spec_observe last_mode m) as [lm out]. now exists lm, out.
  - now exists last_mode, [].
Qed.

(** C10. The holder is always [None] or one of "ECO", "SPORT", "RACE": it
    starts as [None], every call of the callback, on any bytes, returns and
    keeps the property, and so does any sequence of calls. *)
Theorem holder_invariant :
  holder_ok last_mode_init /\
  (forall (last_mode : LastMode) (data : list byte),
      holder_ok last_mode ->
      exists lm out, on_notify last_mode data = Ret (lm, out) /\ holder_ok lm) /\
  (forall (frames : list (list byte)),
      exists lm out, notify_all last_mode_init frames = Ret (lm, out) /\ holder_ok lm).
Proof.
  split; [now left|]. split; [exact on_notify_holder_ok|].
  assert (forall frames s, holder_ok s ->
            exists lm out, notify_all s frames = Ret (lm, out) /\ holder_ok lm)
    as Hall.
  { induction frames as [|data rest IH]; intros s Hs.
    - now exists s, [].
    - destruct (@on_notify_holder_ok s data Hs) as (lm & out & E & Hlm).
      destruct (IH lm Hlm) as (lm' & out' & E' & Hlm').
      exists lm', (out ++ out')%list. cbn [notify_all].
      rewrite E. cbn [bind fst snd]. rewrite E'. now cbn. }
  intro frames. apply Hall. now left.
Qed.

Lemma holder_invariant_witness :
  exists lm out,
    on_notify {| val := Some "ECO"%string |} [x00; x00; x00; x00; x00; x03; x00] =
      Ret (lm, out) /\ holder_ok lm.
Proof.
  apply (proj1 (proj2 holder_invariant)).
  right. now left.
Defined.

(* ================================================================== *)
(** ** Facts about the scanner *)
(* ================================================================== *)

Import Scanner.

Section ScannerFacts.

Local Open Scope Z_scope.

(** *** The sort *)

Lemma insert_desc_perm (key : BLEDevice -> Z) (x : BLEDevice) (l : list BLEDevice) :
  Permutation (x :: l) (insert_desc key x l).
Proof.
  induction l as [|y l IH]; cbn; [reflexivity|].
  destruct (key y <=? key x); [reflexivity|].
  rewrite perm_swap. now apply perm_skip.
Qed.

Lemma sort_reverse_perm (key : BLEDevice -> Z) (l : list BLEDevice) :
  Permutation l (sort_reverse key l).
Proof.
  induction l as [|x l IH]; cbn; [constructor|].
  rewrite <- insert_desc_perm. now apply perm_skip.
Qed.

Lemma insert_desc_sorted (key : BLEDevice -> Z) (x : BLEDevice) (l : list BLEDevice) :
  StronglySorted (fun a b => key b <= key a) l ->
  StronglySorted (fun a b => key b <= key a) (insert_desc key x l).
Proof.
  induction 1 as [|y l Hs IH Hy]; cbn.
  - constructor; constructor.
  - destruct (Z.leb_spec (key y) (key x)) as [Hle|Hgt].
    + constructor; [now constructor|].
      constructor; [assumption|].
      eapply Forall_impl; [|exact Hy]. cbn. intros; lia.
    + constructor; [assumption|].
      apply (Permutation_Forall (insert_desc_perm key x l)).
      constructor; [lia | assumption].
Qed.

Lemma sort_reverse_sorted (key : BLEDevice -> Z) (l : list BLEDevice) :
  StronglySorted (fun a b => key b <= key a) (sort_reverse key l).
Proof.
  induction l as [|x l IH]; cbn; [constructor|].
  now apply insert_desc_sorted.
Qed.

Lemma StronglySorted_nth {A} (R : A -> A -> Prop) (l : list A) :
  StronglySorted R l ->
  forall i j a b, (i < j)%nat ->
    nth_error l i = Some a -> nth_error l j = Some b -> R a b.
Proof.
  induction 1 as [|x l Hs IH Hx]; intros i j a b Hij Hi Hj.
  - destruct i; discriminate.
  - destruct j as [|j]; [lia|]. cbn in Hj.
    destruct i as [|i]; cbn in Hi.
    + injection Hi as <-. rewrite Forall_forall in Hx.
      apply Hx. eapply nth_error_In; eassumption.
    + apply (IH i j); [lia | assumption | assumption].
Qed.

(** *** The [found] dict *)

Lemma dict_set_keys (found : list (string * BLEDevice)) (k : string) (v : BLEDevice) :
  forall x, In x (map fst (dict_set found k v)) <-> x = k \/ In x (map fst found).
Proof.
  induction found as [|[k' v'] rest IH]; intro x; cbn.
  - intuition.
  - destruct (String.eqb_spec k' k) as [->|Hne]; cbn.
    + intuition.
    + rewrite IH. intuition.
Qed.

Lemma dict_set_ok (found : list (string * BLEDevice)) (d : BLEDevice) :
  found_ok found -> found_ok (dict_set found (address d) d).
Proof.
  unfold found_ok. induction found as [|[k' v'] rest IH]; cbn.
  - intros _. split; repeat constructor. intros [].
  - intros [Hnd Hk]. inversion Hnd as [|? ? Hnotin Hnd']; subst.
    inversion Hk as [|? ? Hk1 Hk']; subst. cbn in Hk1.
    destruct (String.eqb_spec k' (address d)) as [E|Hne]; cbn.
    + split; [assumption|]. constructor; [now cbn | assumption].
    + destruct (IH (conj Hnd' Hk')) as [IH1 IH2]. split.
      * constructor; [|assumption].
        rewrite dict_set_keys. intros [E|Hin]; [congruence | contradiction].
      * constructor; [now cbn | assumption].
Qed.

Lemma keyed_values_in (found : list (string * BLEDevice)) (d : BLEDevice) :
  Forall (fun kv => fst kv = address (snd kv)) found ->
  In d (values found) -> In (address d) (map fst found).
Proof.
  intros Hk Hin. unfold values in Hin. apply in_map_iff in Hin.
  destruct Hin as ([k v] & <- & Hin).
  rewrite Forall_forall in Hk. specialize (Hk _ Hin). cbn in Hk |- *.
  rewrite <- Hk. apply in_map_iff. now exists (k, v).
Qed.

Lemma dict_set_values (found : list (string * BLEDevice)) (e : BLEDevice) :
  found_ok found ->
  forall d, In d (values (dict_set found (address e) e)) <->
            d = e \/ (In d (values found) /\ address d <> address e).
Proof.
  unfold found_ok. induction found as [|[k' v'] rest IH]; cbn.
  - intros _ d. intuition.
  - intros [Hnd Hk] d. inversion Hnd as [|? ? Hnotin Hnd']; subst.
    inversion Hk as [|? ? Hk1 Hk']; subst. cbn in Hk1.
    destruct (String.eqb_spec k' (address e)) as [E|Hne]; cbn.
    + split.
      * intros [<-|Hin]; [now left|]. right. split; [now right|].
        intro Ea. apply Hnotin. rewrite E, <- Ea.
        now apply keyed_values_in.
      * intros [->|[[<-|Hin] Ha]]; [now left | congruence | now right].
    + rewrite (IH (conj Hnd' Hk') d). split.
      * intros [<-|[->|[Hin Ha]]]; [right | now left | right]; split; auto.
        congruence.
      * intros [->|[[<-|Hin] Ha]]; auto.
Qed.

(** *** Last advertisement wins *)

Lemma last_seen_snoc (events : list BLEDevice) (e d : BLEDevice) :
  last_seen (events ++ [e]) d <->
  d = e \/ (last_seen events d /\ address d <> address e).
Proof.
  unfold last_seen. split.
  - intros (pre & post & E & Hn).
    induction post as [|x post' _] using rev_ind.
    + left. apply app_inj_tail in E. now destruct E.
    + right. change (pre ++ d :: post' ++ [x]) with (pre ++ (d :: post') ++ [x]) in E.
      rewrite app_assoc in E. apply app_inj_tail in E. destruct E as [E <-].
      rewrite map_app, in_app_iff in Hn. cbn in Hn. split.
      * exists pre, post'. split; [assumption | tauto].
      * intro Ea. apply Hn. right. now left.
  - intros [->|[(pre & post & E & Hn) Ha]].
    + exists events, []. split; [reflexivity | intros []].
    + exists pre, (post ++ [e]). split.
      * rewrite E, <- app_assoc. reflexivity.
      * rewrite map_app, in_app_iff. cbn. intros [H|[H|[]]]; [tauto | congruence].
Qed.

Lemma found_last_seen (events : list BLEDevice) :
  found_ok (fold_left on_detect events []) /\
  forall d, In d (values (fold_left on_detect events [])) <-> last_seen events d.
Proof.
  induction events as [|e events IH] using rev_ind.
  - split; [split; constructor|].
    intro d. cbn. split; [intros [] | intros (pre & post & E & _)].
    now destruct pre.
  - destruct IH as [Hok Hin]. rewrite fold_left_app. cbn [fold_left].
    unfold on_detect at 1 3. split; [now apply dict_set_ok|].
    intro d. rewrite (dict_set_values e Hok d), last_seen_snoc, Hin. reflexivity.
Qed.

Lemma scan_devices_sort (events : list BLEDevice) :
  scan_devices events =
    sort_reverse rssi_of (values (fold_left on_detect events [])).
Proof.
  unfold scan_devices.
  now destruct (values (fold_left on_detect events [])).
Qed.

Lemma perm3_cases {A} (a b c : A) (l : list A) :
  Permutation [a; b; c] l ->
  l = [a; b; c] \/ l = [a; c; b] \/ l = [b; a; c] \/
  l = [b; c; a] \/ l = [c; a; b] \/ l = [c; b; a].
Proof.
  intro H.
  destruct (Permutation_vs_cons_inv (Permutation_sym H)) as (l1 & l2 & ->).
  apply Permutation_cons_app_inv, Permutation_length_2_inv in H.
  destruct H as [H|H];
    destruct l1 as [|x [|y [|z l1]]]; cbn in H; inversion H; subst; auto 10;
    destruct l1; discriminate.
Qed.

End ScannerFacts.

(** The key of an unknown reading is the fixed value -999, below every
    reading a BLE controller reports but not below every integer: a reading
    of -1000 would be sorted after an unknown one. *)
Lemma unknown_not_always_last :
  scan_devices [dev_far; dev_C] = [dev_C; dev_far] /\
  ~ unknown_last (scan_devices [dev_far; dev_C]).
Proof.
  split; [reflexivity|].
  intro H.
  assert (1 < 0) as Hlt.
  { apply (H 0 1 dev_C dev_far); [reflexivity | reflexivity | reflexivity |].
    discriminate. }
  lia.
Qed.

Lemma scan_devices_above_floor (events : list BLEDevice) :
  unknown_after_above (-999) (scan_devices events).
Proof.
  pose proof (sort_reverse_sorted rssi_of (values (fold_left on_detect events [])))
    as Hsorted.
  rewrite <- scan_devices_sort in Hsorted.
  intros i j di dj v Hi Hj Hdi Hdj Hv.
  destruct (Nat.lt_trichotomy j i) as [Hlt|[->|Hgt]]; [assumption | congruence |].
  exfalso.
  pose proof (StronglySorted_nth Hsorted Hgt Hi Hj) as Hle. cbn in Hle.
  unfold rssi_of in Hle. rewrite Hdi, Hdj in Hle. lia.
Qed.

Lemma scan_devices_in_events (events : list BLEDevice) (d : BLEDevice) :
  In d (scan_devices events) -> In d events.
Proof.
  intro H.
  pose proof (sort_reverse_perm rssi_of (values (fold_left on_detect events [])))
    as Hperm.
  rewrite <- scan_devices_sort in Hperm.
  apply (Permutation_in _ (Permutation_sym Hperm)) in H.
  apply (proj2 (found_last_seen events)) in H.
  destruct H as (pre & post & -> & _).
  apply in_or_app. right. now left.
Qed.

(** C6. For every sequence of advertisements of one scan window: the
    output has at most one device per address; its devices are exactly the
    last advertisement of each address; it is sorted by signal strength
    descending; a device of unknown signal strength sorts as the weakest
    (its key is at most the key of every device of the output) and so comes
    after every device of known signal strength, last and never first, the
    known readings being those of a BLE controller (none below -128 dBm);
    and the advertisements of A (rssi -40), B (rssi -70), C (rssi unknown),
    in any order of arrival, give [A, B, C]. *)
Theorem scan_devices_ranked (events : list BLEDevice) :
  NoDup (map address (scan_devices events)) /\
  (forall d, In d (scan_devices events) <-> last_seen events d) /\
  sorted_desc (scan_devices events) /\
  (readings_in_range events ->
   (forall d d', In d (scan_devices events) -> In d' (scan_devices events) ->
                 rssi d = None -> (rssi_of d <= rssi_of d')%Z) /\
   unknown_last (scan_devices events)) /\
  (Permutation [dev_A; dev_B; dev_C] events ->
   scan_devices events = [dev_A; dev_B; dev_C]).
Proof.
  destruct (found_last_seen events) as [[Hnd Hk] Hin].
  pose proof (sort_reverse_perm rssi_of (values (fold_left on_detect events [])))
    as Hperm.
  pose proof (sort_reverse_sorted rssi_of (values (fold_left on_detect events [])))
    as Hsorted.
  rewrite <- scan_devices_sort in Hperm, Hsorted.
  split; [|split; [|split; [|split]]].
  - apply (Permutation_NoDup (Permutation_map address Hperm)).
    replace (map address (values (fold_left on_detect events [])))
      with (map fst (fold_left on_detect events [])); [assumption|].
    unfold values. rewrite map_map. apply map_ext_in.
    intros kv Hkv. rewrite Forall_forall in Hk. now apply Hk.
  - intro d. rewrite <- Hin. split; apply Permutation_in;
      [now apply Permutation_sym | assumption].
  - exact Hsorted.
  - intro Hrange. unfold readings_in_range in Hrange.
    rewrite Forall_forall in Hrange.
    assert (forall d v, In d (scan_devices events) -> rssi d = Some v -> (-128 <= v)%Z)
      as Hout.
    { intros d v Hd. apply Hrange. now apply scan_devices_in_events. }
    split.
    + intros d d' Hd Hd' Hnone. unfold rssi_of. rewrite Hnone.
      destruct (rssi d') as [v|] eqn:E; [|lia].
      specialize (Hout d' v Hd' E). lia.
    + intros i j di dj Hi Hj Hdi Hdj.
      destruct (rssi dj) as [v|] eqn:E; [|congruence].
      apply (@scan_devices_above_floor events i j di dj v Hi Hj Hdi E).
      assert (-128 <= v)%Z
        by (apply (Hout dj v); [eapply nth_error_In; eassumption | assumption]).
      lia.
  - intro H. apply perm3_cases in H.
    destruct H as [->|[->|[->|[->|[->| ->]]]]]; reflexivity.
Qed.

Lemma scan_devices_ranked_witness :
  unknown_last (scan_devices [dev_C; dev_B; dev_A]) /\
  scan_devices [dev_C; dev_B; dev_A] = [dev_A; dev_B; dev_C].
Proof.
  destruct (scan_devices_ranked [dev_C; dev_B; dev_A])
    as (_ & _ & _ & Hlast & Horder).
  split.
  - apply Hlast. repeat constructor; intros v Hv; inversion Hv; lia.
  - apply Horder.
    apply perm_trans with [dev_B; dev_A; dev_C].
    + apply perm_swap.
    + apply perm_trans with [dev_B; dev_C; dev_A].
      * apply perm_skip, perm_swap.
      * apply perm_swap.
Defined.

(* ================================================================== *)
(** ** Facts about the session *)
(* ================================================================== *)

Import Session.

Section SessionFacts.

Lemma releases_app (t t' : list event) :
  releases (t ++ t') = releases t + releases t'.
Proof.
  induction t as [|ev t IH]; [reflexivity|].
  destruct ev; cbn; rewrite IH; reflexivity.
Qed.

Lemma unsubscribes_app (t t' : list event) :
  unsubscribes (t ++ t') = unsubscribes t + unsubscribes t'.
Proof.
  induction t as [|ev t IH]; [reflexivity|].
  destruct ev; cbn; rewrite IH; reflexivity.
Qed.

Lemma writes_app (t t' : list event) :
  writes (t ++ t') = (writes t ++ writes t')%list.
Proof.
  induction t as [|ev t IH]; [reflexivity|].
  destruct ev; cbn; rewrite IH; reflexivity.
Qed.

Lemma releases_writes (out : list string) :
  releases (map StdoutWrite out) = 0.
Proof. induction out; cbn; auto. Qed.

Lemma unsubscribes_writes (out : list string) :
  unsubscribes (map StdoutWrite out) = 0.
Proof. induction out; cbn; auto. Qed.

Lemma writes_writes (out : list string) :
  writes (map StdoutWrite out) = out.
Proof. induction out; cbn; congruence. Qed.

(** While it listens the session neither unsubscribes nor releases the
    connection, and the loop never ends normally. *)
Lemma listen_quiet (env : Env) (fuel : nat) :
  forall i last_mode,
    releases (fst (listen fuel env i last_mode)) = 0 /\
    unsubscribes (fst (listen fuel env i last_mode)) = 0 /\
    forall u, snd (listen fuel env i last_mode) <> Some (Ret u).
Proof.
  induction fuel as [|fuel IH]; intros i last_mode; cbn.
  - repeat split; discriminate.
  - destruct (sleeps env i) as [frames answer].
    destruct (deliver last_mode frames) as [lm out].
    destruct answer as [u|e].
    + specialize (IH (S i) lm).
      destruct (listen fuel env (S i) lm) as [t o]. cbn in *.
      rewrite releases_app, unsubscribes_app, releases_writes, unsubscribes_writes.
      exact IH.
    + cbn. rewrite releases_writes, unsubscribes_writes.
      repeat split; discriminate.
Qed.

Lemma deliver_app (frames frames' : list (list byte)) :
  forall last_mode,
    deliver last_mode (frames ++ frames') =
      (fst (deliver (fst (deliver last_mode frames)) frames'),
       (snd (deliver last_mode frames) ++
        snd (deliver (fst (deliver last_mode frames)) frames'))%list).
Proof.
  induction frames as [|data frames IH]; intro last_mode; cbn.
  - now destruct (deliver last_mode frames').
  - destruct (on_notify last_mode data) as [[lm out]|e].
    + rewrite IH. destruct (deliver lm frames) as [lm1 out1]. cbn.
      now rewrite app_assoc.
    + apply IH.
Qed.

(** With enough fuel the loop is ended by the exception of the [k]-th
    sleep, after the callback wrote what the frames delivered so far made
    it write. *)
Lemma listen_interrupted (env : Env) (e : exn) (k : nat) :
  forall fuel i last_mode,
    (forall j, j < k -> snd (sleeps env (i + j)) = Ret tt) ->
    snd (sleeps env (i + k)) = Raise e ->
    k < fuel ->
    exists t,
      listen fuel env i last_mode = (t, Some (Raise e)) /\
      writes t = snd (deliver last_mode (frames_from env i (S k))).
Proof.
  induction k as [|k IH]; intros fuel i last_mode Hok He Hfuel;
    (destruct fuel as [|fuel]; [lia|]); cbn [listen frames_from].
  - rewrite Nat.add_0_r in He.
    destruct (sleeps env i) as [frames answer]. cbn in He. subst answer.
    rewrite app_nil_r. cbn [fst].
    destruct (deliver last_mode frames) as [lm out].
    eexists. split; [reflexivity|]. cbn. now rewrite writes_writes.
  - pose proof (Hok 0 ltac:(lia)) as H0. rewrite Nat.add_0_r in H0.
    destruct (IH fuel (S i) (fst (deliver last_mode (fst (sleeps env i)))))
      as (t & Et & Wt).
    + intros j Hj. replace (S i + j) with (i + S j) by lia. apply Hok. lia.
    + replace (S i + k) with (i + S k) by lia. exact He.
    + lia.
    + rewrite deliver_app.
      destruct (sleeps env i) as [frames answer]. cbn in H0. subst answer.
      cbn [fst] in *.
      destruct (deliver last_mode frames) as [lm out]. cbn [fst snd] in *.
      rewrite Et. eexists. split; [reflexivity|].
      cbn. now rewrite writes_app, writes_writes, Wt.
Qed.

End SessionFacts.

Section SessionCombinators.

Context {A B : Type}.

Lemma pbind_releases (p : prog A) (k : A -> prog B) :
  releases (fst p) = 0 ->
  (forall a, releases (fst (k a)) = 0) ->
  releases (fst (pbind p k)) = 0.
Proof.
  destruct p as [t [[a|e]|]]; cbn; intros Hp Hk; try assumption.
  specialize (Hk a). destruct (k a) as [t' o]. cbn in *.
  rewrite releases_app. lia.
Qed.

Lemma try_except_releases (body : prog A) (handles : exn -> bool)
      (handler : exn -> prog A) :
  releases (fst body) = 0 ->
  (forall e, releases (fst (handler e)) = 0) ->
  releases (fst (try_except body handles handler)) = 0.
Proof.
  destruct body as [t [[a|e]|]]; cbn; intros Hb Hh; try assumption.
  destruct (handles e); [|assumption].
  specialize (Hh e). destruct (handler e) as [t' o]. cbn in *.
  rewrite releases_app. lia.
Qed.

Lemma try_finally_releases (body : prog A) (fin : prog unit) :
  releases (fst body) = 0 ->
  releases (fst fin) = 0 ->
  releases (fst (try_finally body fin)) = 0.
Proof.
  destruct body as [t [r|]]; cbn; intros Hb Hf; [|assumption].
  destruct fin as [t' [[u|e]|]]; cbn in *; rewrite releases_app; lia.
Qed.

(** The scoped connection: once [__aenter__] succeeded, a run that is over
    ends with the one call of [__aexit__]; a run that is not over has not
    released the connection. *)
Lemma async_with_release (ev : event) (x : res unit) (body : prog A) :
  ev <> Disconnect ->
  releases (fst body) = 0 ->
  (forall r, snd (async_with (call ev (Ret tt)) (call Disconnect x) body) = Some r ->
     fst (async_with (call ev (Ret tt)) (call Disconnect x) body) =
       (ev :: fst body ++ [Disconnect])%list) /\
  (snd (async_with (call ev (Ret tt)) (call Disconnect x) body) = None ->
     fst (async_with (call ev (Ret tt)) (call Disconnect x) body) = ev :: fst body).
Proof.
  intros Hev Hb. unfold async_with, call, pbind, try_finally.
  destruct body as [t [r|]]; cbn.
  - destruct x as [u|e]; cbn; split; intros; auto; discriminate.
  - split; intros; auto; discriminate.
Qed.

End SessionCombinators.

Section SessionRuns.

Variables (fuel : nat) (env : Env).

Lemma live_hud_releases : releases (fst (live_hud fuel env)) = 0.
Proof.
  unfold live_hud. apply pbind_releases; [reflexivity|]. intros _.
  apply try_finally_releases.
  - apply try_except_releases; [apply listen_quiet | reflexivity].
  - apply pbind_releases; [|reflexivity].
    apply try_except_releases; reflexivity.
Qed.

(** The body of the [async with] of [connect_and_run]. *)
Lemma session_body_releases :
  releases
    (fst (pbind (try_except (call IsConnected (is_connected_first env))
                            is_Exception
                            (fun _ => call IsConnected (is_connected_again env)))
                (fun ok : bool =>
                   if negb ok then call (Print MsgCouldNotConnect) (Ret tt)
                   else pbind (call (Print MsgConnected) (Ret tt))
                              (fun _ => live_hud fuel env)))) = 0.
Proof.
  apply pbind_releases.
  - apply try_except_releases; reflexivity.
  - intros [|]; cbn [negb]; [|reflexivity].
    apply pbind_releases; [reflexivity|]. intros _. apply live_hud_releases.
Qed.

(** Every exit path of a session whose connection was acquired: the run
    ends with the release of the connection, executed once. *)
Lemma connect_and_run_released (device : BLEDevice) (t : list event) (r : res unit) :
  aenter env = Ret tt ->
  connect_and_run fuel env device = (t, Some r) ->
  exists t', t = (t' ++ [Disconnect])%list /\ releases t' = 0.
Proof.
  intros Henter Hrun. unfold connect_and_run in Hrun. rewrite Henter in Hrun.
  match type of Hrun with
  | context [async_with ?en ?ex ?body] =>
      pose proof (@async_with_release _ (Connect (address device)) (aexit env) body
                    ltac:(discriminate) session_body_releases) as [Hdone _];
      pose proof session_body_releases as Hq;
      set (b := body) in *; clearbody b;
      destruct (async_with en ex b) as [ta oa]
  end.
  cbn in Hrun. injection Hrun as <- ->.
  specialize (Hdone r eq_refl). cbn in Hdone. subst ta.
  exists (Print (MsgConnecting (address device)) :: Connect (address device) :: fst b).
  split; [reflexivity | exact Hq].
Qed.

(** A run that is still listening holds the connection. *)
Lemma connect_and_run_listening (device : BLEDevice) (t : list event) :
  connect_and_run fuel env device = (t, None) -> releases t = 0.
Proof.
  unfold connect_and_run. destruct (aenter env) as [[]|e] eqn:Henter.
  - match goal with
    | |- context [async_with ?en ?ex ?body] =>
        pose proof (@async_with_release _ (Connect (address device)) (aexit env) body
                      ltac:(discriminate) session_body_releases) as [_ Hrunning];
        pose proof session_body_releases as Hq;
        set (b := body) in *; clearbody b;
        destruct (async_with en ex b) as [ta oa]
    end.
    cbn. intro H. injection H as <- ->.
    specialize (Hrunning eq_refl). cbn in Hrunning. subst ta. exact Hq.
  - cbn. discriminate.
Qed.

(** When [__aenter__] raises (the connection is refused or times out), the
    body never runs, the exception leaves [connect_and_run], and the script
    makes no call of [__aexit__]. *)
Lemma connect_failure_no_release (device : BLEDevice) (e : exn) :
  aenter env = Raise e ->
  connect_and_run fuel env device =
    ([Print (MsgConnecting (address device)); Connect (address device)],
     Some (Raise e)).
Proof.
  intro H. unfold connect_and_run, async_with. rewrite H. reflexivity.
Qed.

End SessionRuns.

Section SessionInterrupted.

Variables (fuel : nat) (env : Env) (k : nat) (e : exn).

Hypothesis Hstart : start_notify env = Ret tt.
Hypothesis Hint : interrupted_at env k e.
Hypothesis Hfuel : k < fuel.
Hypothesis Hstop : stop_notify_ok_or_error env.

Lemma live_hud_interrupted :
  exists t,
    live_hud fuel env =
      ((StartNotify FFF2_UUID :: t) ++ [StopNotify FFF2_UUID; StdoutWrite LF],
       Some (if is_KeyboardInterrupt e then Ret tt else Raise e)) /\
    releases t = 0 /\ unsubscribes t = 0 /\
    writes t = snd (deliver last_mode_init (frames_from env 0 (S k))).
Proof.
  destruct Hint as [Hok He].
  destruct (@listen_interrupted env e k fuel 0 last_mode_init Hok He Hfuel)
    as (t & Et & Wt).
  destruct (listen_quiet env fuel 0 last_mode_init) as (Hr & Hu & _).
  rewrite Et in Hr, Hu. cbn [fst] in Hr, Hu.
  exists t. repeat split; try assumption.
  unfold live_hud. rewrite Hstart, Et.
  destruct Hstop as [Es | [c Es]]; rewrite Es;
    destruct e; cbn; rewrite ?app_nil_r; reflexivity.
Qed.

Hypothesis Henter : aenter env = Ret tt.
Hypothesis Hcheck : check_ok env.

Lemma connect_and_run_interrupted (device : BLEDevice) :
  exists t,
    connect_and_run fuel env device =
      (t ++ [StopNotify FFF2_UUID; StdoutWrite LF; Disconnect],
       Some (closing_result env e)) /\
    releases t = 0 /\ unsubscribes t = 0 /\
    writes t = snd (deliver last_mode_init (frames_from env 0 (S k))).
Proof.
  destruct live_hud_interrupted as (t & Et & Hr & Hu & Wt).
  unfold connect_and_run, async_with, closing_result.
  rewrite Henter, Et.
  destruct Hcheck as [E1 | [[c E1] E2]]; rewrite E1; try rewrite E2.
  - exists (Print (MsgConnecting (address device)) :: Connect (address device)
            :: IsConnected :: Print MsgConnected :: StartNotify FFF2_UUID :: t).
    split; [|now repeat split].
    destruct (aexit env) as [[]|e2]; destruct e; cbn;
      rewrite <- ?app_assoc; reflexivity.
  - exists (Print (MsgConnecting (address device)) :: Connect (address device)
            :: IsConnected :: IsConnected :: Print MsgConnected
            :: StartNotify FFF2_UUID :: t).
    split; [|now repeat split].
    destruct (aexit env) as [[]|e2]; destruct e; cbn;
      rewrite <- ?app_assoc; reflexivity.
Qed.

End SessionInterrupted.

(** C7, as stated, fails on the exit path of a connection timeout: when
    [__aenter__] raises, the body of the [async with] never runs, the
    exception leaves [connect_and_run], and the release step is executed
    zero times, not once. *)
Lemma connect_timeout_releases_nothing :
  connect_and_run 5 env_connect_timeout dev_A =
    ([Print (MsgConnecting (address dev_A)); Connect (address dev_A)],
     Some (Raise (Exception "TimeoutError"))) /\
  releases (fst (connect_and_run 5 env_connect_timeout dev_A)) <> 1.
Proof.
  split; [reflexivity | discriminate].
Qed.

(** C7, amended. Once the connection is acquired and the session
    listens, an interrupt (raised in a sleep as [KeyboardInterrupt], or as
    the cancellation of the task) always ends the session, also when the
    unsubscribe call raises an error: the failure is swallowed, the newline
    is still written, and the release of the connection follows, executed
    exactly once.  Every run of a session whose connection was acquired
    that is over, however it ended (cancellation, error or timeout inside
    the session), ends with the release of the connection, executed exactly
    once.  When connecting itself fails or times out, no connection was
    acquired: the exception leaves [connect_and_run] and no release step is
    executed. *)
Theorem cancelled_session_closes :
  (forall (fuel : nat) (env : Env) (device : BLEDevice) (k : nat) (e : exn),
      aenter env = Ret tt ->
      check_ok env ->
      start_notify env = Ret tt ->
      interrupted_at env k e ->
      k < fuel ->
      stop_notify_ok_or_error env ->
      exists t,
        connect_and_run fuel env device =
          (t ++ [StopNotify FFF2_UUID; StdoutWrite LF; Disconnect],
           Some (closing_result env e)) /\
        releases t = 0 /\ unsubscribes t = 0) /\
  (forall (fuel : nat) (env : Env) (device : BLEDevice)
          (t : list event) (r : res unit),
      aenter env = Ret tt ->
      connect_and_run fuel env device = (t, Some r) ->
      exists t', t = t' ++ [Disconnect] /\ releases t' = 0) /\
  (forall (fuel : nat) (env : Env) (device : BLEDevice) (e : exn),
      aenter env = Raise e ->
      connect_and_run fuel env device =
        ([Print (MsgConnecting (address device)); Connect (address device)],
         Some (Raise e)) /\
      releases (fst (connect_and_run fuel env device)) = 0).
Proof.
  split; [|split].
  - intros fuel env device k e Henter Hcheck Hstart Hint Hfuel Hstop.
    destruct (@connect_and_run_interrupted fuel env k e Hstart Hint Hfuel Hstop
                Henter Hcheck device) as (t & Et & Hr & Hu & _).
    now exists t.
  - intros fuel env device t r Henter Hrun.
    exact (@connect_and_run_released fuel env device t r Henter Hrun).
  - intros fuel env device e Henter.
    rewrite (@connect_failure_no_release fuel env device e Henter).
    split; reflexivity.
Qed.

Lemma cancelled_session_closes_witness :
  exists t,
    connect_and_run 5 env_unsubscribe_fails dev_A =
      (t ++ [StopNotify FFF2_UUID; StdoutWrite LF; Disconnect], Some (Ret tt)) /\
    releases t = 0 /\ unsubscribes t = 0.
Proof.
  apply (proj1 cancelled_session_closes 5 env_unsubscribe_fails dev_A 1
               KeyboardInterrupt).
  - reflexivity.
  - left. reflexivity.
  - reflexivity.
  - split; [|reflexivity].
    intros i Hi. assert (i = 0) as -> by lia. reflexivity.
  - lia.
  - right. exists "BleakError"%string. reflexivity.
Defined.

Section MainLoop.

Variable fuel : nat.



End MainLoop.





(* ================================================================== *)
(** ** Further properties of the notification callback *)
(* ================================================================== *)

Import Render.

(** X1. The callback reads the length of the frame and the bytes at
    offsets 5 and 6, nothing else: two frames of at least 7 bytes that agree
    at these two offsets have the same effect, whatever their other bytes
    and their lengths. *)
Theorem on_notify_reads_two_bytes
        (last_mode : LastMode) (data data' : list byte) :
  7 <= List.length data ->
  7 <= List.length data' ->
  nth_error data 5 = nth_error data' 5 ->
  nth_error data 6 = nth_error data' 6 ->
  on_notify last_mode data = on_notify last_mode data'.
Proof.
  intros Hl Hl' H5 H6. rewrite !on_notify_pipeline.
  unfold spec_pipeline, spec_decode.
  destruct (Nat.ltb_spec (List.length data) 7) as [Hc|_]; [lia|].
  destruct (Nat.ltb_spec (List.length data') 7) as [Hc|_]; [lia|].
  now rewrite H5, H6.
Qed.

Lemma on_notify_reads_two_bytes_witness :
  on_notify last_mode_init [x00; x00; x00; x00; x00; x02; x00] =
  on_notify last_mode_init [xde; xad; xbe; xef; x99; x02; x00; x41; x42].
Proof.
  apply on_notify_reads_two_bytes; [cbn; lia | cbn; lia | reflexivity | reflexivity].
Defined.

(** X2. One call of the callback writes at most one line, and it writes
    exactly when the frame carries a mode that the holder does not have:
    then the line of that mode is written and the holder takes the mode;
    otherwise nothing is written and the holder is unchanged. *)
Theorem on_notify_writes_iff_change (last_mode : LastMode) (data : list byte) :
  exists lm out,
    on_notify last_mode data = Ret (lm, out) /\
    ((out = [] /\ lm = last_mode /\
      forall m, carries m data -> val last_mode = Some (mode_name m)) \/
     (exists m,
         carries m data /\ val last_mode <> Some (mode_name m) /\
         out = [mode_line m] /\ lm = {| val := Some (mode_name m) |})).
Proof.
  rewrite on_notify_pipeline. unfold spec_pipeline.
  destruct (spec_decode data) as [m|] eqn:E.
  - unfold spec_observe.
    destruct (ne_str (val last_mode) (mode_name m)) eqn:En.
    + eexists _, _. split; [reflexivity|]. right. exists m.
      split; [now apply carries_spec_decode|].
      split; [|split; reflexivity].
      intro H. now rewrite (@ne_str_false _ _ H) in En.
    + eexists _, _. split; [reflexivity|]. left.
      split; [reflexivity|]. split; [reflexivity|].
      intros m' Hm'. apply spec_decode_carries in Hm'.
      assert (m' = m) as -> by congruence.
      now apply ne_str_false_inv.
  - eexists _, _. split; [reflexivity|]. left.
    split; [reflexivity|]. split; [reflexivity|].
    intros m Hm. apply spec_decode_carries in Hm. congruence.
Qed.

Lemma last_held_cons (held : option string) (m : Mode) (modes : list Mode) :
  last_held held (m :: modes) = last_held (Some (mode_name m)) modes.
Proof. reflexivity. Qed.

Lemma notify_all_decoded (frames : list (list byte)) :
  forall last_mode : LastMode,
    notify_all last_mode frames =
      Ret ({| val := last_held (val last_mode) (decoded frames) |},
           map mode_line (changes (val last_mode) (decoded frames))).
Proof.
  induction frames as [|data rest IH]; intros [held].
  - reflexivity.
  - cbn [notify_all decoded]. rewrite on_notify_pipeline. unfold spec_pipeline.
    destruct (spec_decode data) as [m|].
    + unfold spec_observe. cbn [val changes].
      destruct (ne_str held (mode_name m)) eqn:En; cbn [bind fst snd];
        rewrite IH; cbn [bind fst snd val app map]; rewrite last_held_cons.
      * reflexivity.
      * apply ne_str_false_inv in En. subst held. reflexivity.
    + cbn [bind fst snd]. rewrite IH. reflexivity.
Qed.

(** X3. Over any sequence of frames and from any holder, what the
    callbacks write is the line of every carried mode that differs from the
    mode carried before it (the first one from what the holder had), in
    order; the holder ends with the last carried mode, or as it was when no
    frame carried one. *)
Theorem notify_all_renders_changes
        (last_mode : LastMode) (frames : list (list byte)) :
  notify_all last_mode frames =
    Ret ({| val := last_held (val last_mode) (decoded frames) |},
         map mode_line (changes (val last_mode) (decoded frames))).
Proof. apply notify_all_decoded. Qed.

Lemma mode_name_inj (m m' : Mode) : mode_name m = mode_name m' -> m = m'.
Proof. destruct m, m'; cbn; intro H; try reflexivity; discriminate. Qed.

Lemma mode_line_inj (m m' : Mode) : mode_line m = mode_line m' -> m = m'.
Proof.
  destruct m, m'; intro H; try reflexivity; vm_compute in H; discriminate.
Qed.

Lemma changes_alternate (modes : list Mode) :
  forall held,
    (forall m, held = Some (mode_name m) ->
               hd_error (changes held modes) <> Some m) /\
    no_repeat (changes held modes).
Proof.
  induction modes as [|m modes IH]; intro held; cbn [changes].
  - split; [intros; discriminate | intros [|i] a b H; discriminate].
  - destruct (ne_str held (mode_name m)) eqn:En; [|apply IH].
    destruct (IH (Some (mode_name m))) as [IHh IHn]. split.
    + intros m' Hm' Hhd. cbn in Hhd. injection Hhd as ->.
      now rewrite (@ne_str_false _ _ Hm') in En.
    + intros [|i] a b Ha Hb; cbn in Ha, Hb.
      * injection Ha as <-. intros <-.
        apply (IHh m eq_refl).
        now destruct (changes (Some (mode_name m)) modes).
      * now apply (IHn i).
Qed.

(** X4. The callbacks never write the same line twice in a row, and the
    first line they write is not the line of the mode the holder had: a
    mode that is reported again and again is rendered once. *)
Theorem writes_never_repeat
        (last_mode lm : LastMode) (frames : list (list byte)) (out : list string) :
  notify_all last_mode frames = Ret (lm, out) ->
  no_repeat out /\
  (forall m, val last_mode = Some (mode_name m) ->
             hd_error out <> Some (mode_line m)).
Proof.
  rewrite notify_all_decoded. intro H. injection H as _ <-.
  destruct (changes_alternate (decoded frames) (val last_mode)) as [Hh Hn].
  split.
  - intros i a b Ha Hb. rewrite nth_error_map in Ha, Hb.
    destruct (nth_error (changes (val last_mode) (decoded frames)) i)
      as [x|] eqn:Ex; [|discriminate].
    destruct (nth_error (changes (val last_mode) (decoded frames)) (S i))
      as [y|] eqn:Ey; [|discriminate].
    cbn in Ha, Hb. injection Ha as <-. injection Hb as <-.
    intro E. apply mode_line_inj in E. now apply (Hn i x y).
  - intros m Hm Hhd. apply (Hh m Hm).
    destruct (changes (val last_mode) (decoded frames)) as [|x l];
      [discriminate|].
    cbn in Hhd |- *. injection Hhd as E. apply mode_line_inj in E. now subst.
Qed.

Lemma writes_never_repeat_witness :
  no_repeat [ECO_LINE; SPORT_LINE] /\
  (forall m, Some "RACE"%string = Some (mode_name m) ->
             hd_error [ECO_LINE; SPORT_LINE] <> Some (mode_line m)).
Proof.
  apply (@writes_never_repeat {| val := Some "RACE"%string |}
           {| val := Some "SPORT"%string |}
           [[x00; x00; x00; x00; x00; x01; x00];
            [x00; x00; x00; x00; x00; x01; x00];
            [x00; x00; x00];
            [x00; x00; x00; x00; x00; x02; x00];
            [x00; x00; x00; x00; x00; x02; x00]]).
  reflexivity.
Defined.

Lemma deliver_notify_all (frames : list (list byte)) :
  forall last_mode, notify_all last_mode frames = Ret (deliver last_mode frames).
Proof.
  induction frames as [|data rest IH]; intro last_mode; [reflexivity|].
  cbn [notify_all deliver].
  destruct (on_notify_total last_mode data) as [[lm out] E]. rewrite E.
  cbn [bind fst snd]. rewrite IH. cbn [bind].
  now destruct (deliver lm rest).
Qed.

(** X6. The branches of the callback agree with the table [MODE_MAP],
    which the callback does not read: after a frame that passes the gate,
    the holder has [MODE_MAP.get(data[5])] when byte 5 is a key of the
    table, and what it had before when it is not. *)
Theorem holder_follows_MODE_MAP
        (last_mode lm : LastMode) (data : list byte) (b : byte) (out : list string) :
  7 <= List.length data ->
  nth_error data 6 = Some x00 ->
  nth_error data 5 = Some b ->
  on_notify last_mode data = Ret (lm, out) ->
  val lm = match dict_get MODE_MAP (Byte.to_N b) with
           | Some name => Some name
           | None => val last_mode
           end.
Proof.
  intros Hlen Hg Hb. rewrite <- (@decode_agrees_MODE_MAP data b Hlen Hg Hb).
  rewrite on_notify_pipeline. unfold spec_pipeline.
  destruct (spec_decode data) as [m|]; cbn [option_map].
  - unfold spec_observe.
    destruct (ne_str (val last_mode) (mode_name m)) eqn:En;
      intro H; injection H as <- _; [reflexivity|].
    now apply ne_str_false_inv.
  - intro H. now injection H as <- _.
Qed.

Lemma holder_follows_MODE_MAP_witness :
  val {| val := Some "RACE"%string |} =
    match dict_get MODE_MAP (Byte.to_N x03) with
    | Some name => Some name
    | None => val {| val := Some "ECO"%string |}
    end.
Proof.
  apply (@holder_follows_MODE_MAP {| val := Some "ECO"%string |}
           {| val := Some "RACE"%string |}
           [x00; x00; x00; x00; x00; x03; x00] x03 [RACE_LINE]);
    [cbn; lia | reflexivity | reflexivity | reflexivity].
Defined.

(* ================================================================== *)
(** ** Further properties of the scanner *)
(* ================================================================== *)

Import ScannerCases.

Section ScannerMore.

Local Open Scope Z_scope.

Lemma found_keys (events : list BLEDevice) :
  forall x, In x (map fst (fold_left on_detect events [])) <->
            In x (map address events).
Proof.
  induction events as [|e events IH] using rev_ind; intro x.
  - reflexivity.
  - rewrite fold_left_app. cbn [fold_left]. unfold on_detect at 1.
    rewrite dict_set_keys, IH, map_app, in_app_iff. cbn. intuition.
Qed.

Lemma found_addresses (events : list BLEDevice) :
  map address (values (fold_left on_detect events [])) =
    map fst (fold_left on_detect events []).
Proof.
  destruct (found_last_seen events) as [[_ Hk] _].
  unfold values. rewrite map_map. apply map_ext_in.
  intros kv Hkv. rewrite Forall_forall in Hk. symmetry. now apply Hk.
Qed.

Lemma scan_devices_perm (events : list BLEDevice) :
  Permutation (values (fold_left on_detect events [])) (scan_devices events).
Proof. rewrite scan_devices_sort. apply sort_reverse_perm. Qed.

Lemma dict_set_absent (found : list (string * BLEDevice)) (k : string) (v : BLEDevice) :
  ~ In k (map fst found) -> dict_set found k v = (found ++ [(k, v)])%list.
Proof.
  induction found as [|[k' v'] rest IH]; cbn; intro H; [reflexivity|].
  destruct (String.eqb_spec k' k) as [E|_]; [tauto|].
  rewrite IH; [reflexivity | tauto].
Qed.

Lemma found_distinct (events : list BLEDevice) :
  NoDup (map address events) ->
  values (fold_left on_detect events []) = events.
Proof.
  induction events as [|e events IH] using rev_ind; intro Hnd; [reflexivity|].
  rewrite map_app in Hnd. cbn in Hnd.
  apply NoDup_remove in Hnd. rewrite app_nil_r in Hnd. destruct Hnd as [Hnd Hnot].
  rewrite fold_left_app. cbn [fold_left]. unfold on_detect at 1.
  rewrite dict_set_absent by (now rewrite found_keys).
  unfold values in *. rewrite map_app, (IH Hnd). reflexivity.
Qed.

Lemma with_key_insert (v : Z) (x : BLEDevice) (l : list BLEDevice) :
  with_key v (insert_desc rssi_of x l) = with_key v (x :: l).
Proof.
  unfold with_key. induction l as [|y l IH]; [reflexivity|].
  cbn [insert_desc].
  destruct (Z.leb_spec (rssi_of y) (rssi_of x)) as [Hle|Hgt]; [reflexivity|].
  cbn [filter] in *. rewrite IH.
  destruct (Z.eqb_spec (rssi_of y) v) as [Ey|Ny];
    destruct (Z.eqb_spec (rssi_of x) v) as [Ex|Nx]; try reflexivity.
  lia.
Qed.

Lemma with_key_sort (v : Z) (l : list BLEDevice) :
  with_key v (sort_reverse rssi_of l) = with_key v l.
Proof.
  induction l as [|x l IH]; [reflexivity|].
  cbn [sort_reverse fold_right]. rewrite with_key_insert.
  unfold with_key in *. cbn [filter]. fold (sort_reverse rssi_of l).
  now rewrite IH.
Qed.

End ScannerMore.

(** X7. The scan returns the empty list exactly when the detection
    callback was never called during the window. *)
Theorem scan_empty_iff (events : list BLEDevice) :
  scan_devices events = [] <-> events = [].
Proof.
  split; [|now intros ->].
  intro H. destruct events as [|e events]; [reflexivity|]. exfalso.
  pose proof (scan_devices_perm (e :: events)) as Hp. rewrite H in Hp.
  apply Permutation_sym, Permutation_nil in Hp.
  assert (In (address e) (map fst (fold_left on_detect (e :: events) []))) as Hin.
  { apply found_keys. now left. }
  rewrite <- found_addresses, Hp in Hin. exact Hin.
Qed.

(** X8. The scan returns as many devices as there are distinct addresses
    among the advertisements of the window. *)
Theorem scan_length (events : list BLEDevice) :
  List.length (scan_devices events) =
    List.length (nodup string_dec (map address events)).
Proof.
  rewrite <- (Permutation_length (scan_devices_perm events)).
  rewrite <- (length_map address), found_addresses.
  apply Permutation_length, NoDup_Permutation.
  - now destruct (found_last_seen events) as [[Hnd _] _].
  - apply NoDup_nodup.
  - intro x. now rewrite found_keys, nodup_In.
Qed.

(** X9. The device listed first has the strongest signal of the window:
    no advertisement that is the last one of its address has a greater sort
    key than the first device of the result. *)
Theorem first_is_strongest
        (events : list BLEDevice) (best : BLEDevice) (rest : list BLEDevice)
        (d : BLEDevice) :
  scan_devices events = best :: rest ->
  last_seen events d ->
  (rssi_of d <= rssi_of best)%Z.
Proof.
  intros Hscan Hd.
  apply (proj2 (found_last_seen events)) in Hd.
  apply (Permutation_in _ (scan_devices_perm events)) in Hd.
  pose proof (sort_reverse_sorted rssi_of (values (fold_left on_detect events [])))
    as Hs.
  rewrite <- scan_devices_sort, Hscan in Hs. rewrite Hscan in Hd.
  destruct Hd as [<-|Hd]; [lia|].
  apply StronglySorted_inv in Hs. destruct Hs as [_ Hall].
  rewrite Forall_forall in Hall. now apply Hall.
Qed.

Lemma first_is_strongest_witness :
  (rssi_of dev_A_again <= rssi_of dev_B)%Z.
Proof.
  apply (@first_is_strongest [dev_A; dev_C; dev_B; dev_A_again]
           dev_B [dev_A_again; dev_C] dev_A_again).
  - reflexivity.
  - exists [dev_A; dev_C; dev_B], []. split; [reflexivity | intros []].
Defined.

(** X10. The sort is stable: when every address is advertised once,
    devices with the same sort key are listed in the order in which they
    were detected. *)
Theorem ties_keep_detection_order (events : list BLEDevice) (v : Z) :
  NoDup (map address events) ->
  with_key v (scan_devices events) = with_key v events.
Proof.
  intro Hnd. rewrite scan_devices_sort, with_key_sort.
  now rewrite (@found_distinct events Hnd).
Qed.

Lemma ties_keep_detection_order_witness :
  with_key (-70) (scan_devices [dev_E; dev_A; dev_B]) = [dev_E; dev_B].
Proof.
  apply (@ties_keep_detection_order [dev_E; dev_A; dev_B] (-70)%Z).
  repeat constructor; cbn; intuition discriminate.
Defined.

(* ================================================================== *)
(** ** Further properties of the session *)
(* ================================================================== *)

Import SessionCases.

Section SessionMore.

Lemma subscribes_app (t t' : list event) :
  subscribes (t ++ t') = subscribes t + subscribes t'.
Proof.
  induction t as [|ev t IH]; [reflexivity|].
  destruct ev; cbn; rewrite IH; reflexivity.
Qed.

Lemma subscribes_writes (out : list string) :
  subscribes (map StdoutWrite out) = 0.
Proof. induction out; cbn; auto. Qed.

Lemma listen_no_subscribe (env : Env) (fuel : nat) :
  forall i last_mode, subscribes (fst (listen fuel env i last_mode)) = 0.
Proof.
  induction fuel as [|fuel IH]; intros i last_mode; cbn; [reflexivity|].
  destruct (sleeps env i) as [frames answer].
  destruct (deliver last_mode frames) as [lm out].
  destruct answer as [u|e]; cbn.
  - specialize (IH (S i) lm). destruct (listen fuel env (S i) lm) as [t o].
    cbn in *. now rewrite subscribes_app, subscribes_writes.
  - apply subscribes_writes.
Qed.

(** Without an interrupt the loop goes on, whatever the fuel. *)
Lemma listen_forever (env : Env) (fuel : nat) :
  never_interrupted env ->
  forall i last_mode,
    snd (listen fuel env i last_mode) = None /\
    writes (fst (listen fuel env i last_mode)) =
      snd (deliver last_mode (frames_from env i fuel)).
Proof.
  intro Hq. induction fuel as [|fuel IH]; intros i last_mode;
    cbn [listen frames_from]; [now split|].
  specialize (Hq i) as Hi. rewrite deliver_app.
  destruct (sleeps env i) as [frames answer]. cbn in Hi. subst answer.
  cbn [fst snd].
  destruct (deliver last_mode frames) as [lm out]. cbn [fst snd].
  destruct (IH (S i) lm) as [Ho Hw].
  destruct (listen fuel env (S i) lm) as [t o]. cbn [fst snd] in *.
  split; [assumption|].
  cbn. now rewrite writes_app, writes_writes, Hw.
Qed.

Variables (fuel : nat) (env : Env).

Hypothesis Henter : aenter env = Ret tt.

Lemma connect_and_run_checked (device : BLEDevice) :
  check_ok env ->
  exists checks,
    (checks = [IsConnected] \/ checks = [IsConnected; IsConnected]) /\
    connect_and_run fuel env device =
      match live_hud fuel env with
      | (t, Some r) =>
          (Print (MsgConnecting (address device)) :: Connect (address device)
           :: checks ++ Print MsgConnected :: t ++ [Disconnect],
           Some (released env r))
      | (t, None) =>
          (Print (MsgConnecting (address device)) :: Connect (address device)
           :: checks ++ Print MsgConnected :: t, None)
      end.
Proof.
  intros [E1 | [[c E1] E2]].
  - exists [IsConnected]. split; [now left|].
    unfold connect_and_run, async_with, released. rewrite Henter, E1.
    destruct (live_hud fuel env) as [t [r|]]; cbn; [|reflexivity].
    destruct (aexit env) as [[]|e2]; reflexivity.
  - exists [IsConnected; IsConnected]. split; [now right|].
    unfold connect_and_run, async_with, released. rewrite Henter, E1, E2.
    destruct (live_hud fuel env) as [t [r|]]; cbn; [|reflexivity].
    destruct (aexit env) as [[]|e2]; reflexivity.
Qed.

End SessionMore.

Lemma live_hud_ended (fuel : nat) (env : Env) (k : nat) (e : exn) :
  start_notify env = Ret tt ->
  interrupted_at env k e ->
  k < fuel ->
  exists t,
    live_hud fuel env =
      (StartNotify FFF2_UUID :: t ++ StopNotify FFF2_UUID :: newline_written env,
       Some (hud_result env e)) /\
    subscribes t = 0 /\ unsubscribes t = 0 /\ releases t = 0.
Proof.
  intros Hstart [Hok He] Hfuel.
  destruct (@listen_interrupted env e k fuel 0 last_mode_init Hok He Hfuel)
    as (t & Et & _).
  destruct (listen_quiet env fuel 0 last_mode_init) as (Hr & Hu & _).
  pose proof (listen_no_subscribe env fuel 0 last_mode_init) as Hs.
  rewrite Et in Hr, Hu, Hs. cbn [fst] in Hr, Hu, Hs.
  exists t. repeat split; try assumption.
  unfold live_hud, hud_result, newline_written. rewrite Hstart, Et.
  destruct (stop_notify env) as [[]|e2]; [|destruct e2];
    destruct e; cbn; rewrite ?app_nil_r; reflexivity.
Qed.

Lemma live_hud_listening (fuel : nat) (env : Env) :
  start_notify env = Ret tt ->
  never_interrupted env ->
  exists t,
    live_hud fuel env = (StartNotify FFF2_UUID :: t, None) /\
    unsubscribes t = 0 /\ releases t = 0 /\
    writes t = snd (deliver last_mode_init (frames_from env 0 fuel)).
Proof.
  intros Hstart Hq.
  destruct (@listen_forever env fuel Hq 0 last_mode_init) as [Ho Hw].
  destruct (listen_quiet env fuel 0 last_mode_init) as (Hr & Hu & _).
  destruct (listen fuel env 0 last_mode_init) as [t o] eqn:El.
  cbn [fst snd] in *. subst o. exists t. repeat split; try assumption.
  unfold live_hud. rewrite Hstart, El. reflexivity.
Qed.

(** X11. When the connection-status check says "not connected", the
    session prints "Could not connect.", never subscribes, and releases the
    connection once before [connect_and_run] returns. *)
Theorem not_connected_gives_up (fuel : nat) (env : Env) (device : BLEDevice) :
  aenter env = Ret tt ->
  check_fails env ->
  exists checks,
    (checks = [IsConnected] \/ checks = [IsConnected; IsConnected]) /\
    connect_and_run fuel env device =
      (Print (MsgConnecting (address device)) :: Connect (address device)
       :: checks ++ [Print MsgCouldNotConnect; Disconnect],
       Some (released env (Ret tt))).
Proof.
  intros Henter [E1 | [[c E1] E2]].
  - exists [IsConnected]. split; [now left|].
    unfold connect_and_run, async_with, released. rewrite Henter, E1.
    destruct (aexit env) as [[]|e2]; reflexivity.
  - exists [IsConnected; IsConnected]. split; [now right|].
    unfold connect_and_run, async_with, released. rewrite Henter, E1, E2.
    destruct (aexit env) as [[]|e2]; reflexivity.
Qed.

Lemma not_connected_gives_up_witness :
  exists checks,
    (checks = [IsConnected] \/ checks = [IsConnected; IsConnected]) /\
    connect_and_run 3 env_not_connected dev_A =
      (Print (MsgConnecting (address dev_A)) :: Connect (address dev_A)
       :: checks ++ [Print MsgCouldNotConnect; Disconnect],
       Some (released env_not_connected (Ret tt))).
Proof.
  apply (@not_connected_gives_up 3 env_not_connected dev_A).
  - reflexivity.
  - right. split; [now exists "AttributeError"%string | reflexivity].
Defined.

(** X12. When the subscribe call raises, the unsubscribe call is not
    made and no newline is written (the call is outside the [try]); the
    connection is still released once, and the exception leaves
    [connect_and_run] unless the release raises its own. *)
Theorem subscribe_failure_skips_unsubscribe
        (fuel : nat) (env : Env) (device : BLEDevice) (e : exn) :
  aenter env = Ret tt ->
  check_ok env ->
  start_notify env = Raise e ->
  exists checks,
    (checks = [IsConnected] \/ checks = [IsConnected; IsConnected]) /\
    connect_and_run fuel env device =
      (Print (MsgConnecting (address device)) :: Connect (address device)
       :: checks ++ [Print MsgConnected; StartNotify FFF2_UUID; Disconnect],
       Some (released env (Raise e))).
Proof.
  intros Henter Hcheck Hstart.
  destruct (@connect_and_run_checked fuel env Henter device Hcheck)
    as (checks & Hchecks & Erun).
  exists checks. split; [assumption|]. rewrite Erun.
  unfold live_hud. rewrite Hstart. reflexivity.
Qed.

Lemma subscribe_failure_skips_unsubscribe_witness :
  exists checks,
    (checks = [IsConnected] \/ checks = [IsConnected; IsConnected]) /\
    connect_and_run 3 env_subscribe_fails dev_A =
      (Print (MsgConnecting (address dev_A)) :: Connect (address dev_A)
       :: checks ++ [Print MsgConnected; StartNotify FFF2_UUID; Disconnect],
       Some (released env_subscribe_fails (Raise (Exception "BleakError")))).
Proof.
  apply (@subscribe_failure_skips_unsubscribe 3 env_subscribe_fails dev_A
           (Exception "BleakError")).
  - reflexivity.
  - left. reflexivity.
  - reflexivity.
Defined.

(** X13. However the wait ends and whatever the unsubscribe call does, a
    session that subscribed makes exactly one subscribe call and exactly one
    unsubscribe call, the latter before the release.  An [Exception] of the
    unsubscribe call is swallowed; any other exception of it (a second
    cancellation) skips the newline and leaves [live_hud] in place of the
    exception that ended the wait. *)
Theorem listening_ends_with_one_unsubscribe
        (fuel : nat) (env : Env) (device : BLEDevice) (k : nat) (e : exn) :
  aenter env = Ret tt ->
  check_ok env ->
  start_notify env = Ret tt ->
  interrupted_at env k e ->
  k < fuel ->
  exists t,
    connect_and_run fuel env device =
      (t ++ StopNotify FFF2_UUID :: newline_written env ++ [Disconnect],
       Some (released env (hud_result env e))) /\
    subscribes t = 1 /\ unsubscribes t = 0 /\ releases t = 0.
Proof.
  intros Henter Hcheck Hstart Hint Hfuel.
  destruct (@connect_and_run_checked fuel env Henter device Hcheck)
    as (checks & Hchecks & Erun).
  destruct (@live_hud_ended fuel env k e Hstart Hint Hfuel)
    as (t & Et & Hs & Hu & Hr).
  rewrite Et in Erun.
  exists (Print (MsgConnecting (address device)) :: Connect (address device)
          :: checks ++ Print MsgConnected :: StartNotify FFF2_UUID :: t).
  split.
  - rewrite Erun. f_equal. cbn. do 2 f_equal.
    rewrite <- !app_assoc. cbn. rewrite <- ?app_assoc. reflexivity.
  - destruct Hchecks as [-> | ->]; cbn; rewrite Hs, Hu, Hr; repeat split.
Qed.

Lemma listening_ends_with_one_unsubscribe_witness :
  exists t,
    connect_and_run 2 env_cancelled_twice dev_A =
      (t ++ [StopNotify FFF2_UUID; Disconnect],
       Some (Raise (BaseOnly "CancelledError"))) /\
    subscribes t = 1 /\ unsubscribes t = 0 /\ releases t = 0.
Proof.
  apply (@listening_ends_with_one_unsubscribe 2 env_cancelled_twice dev_A 0
           (BaseOnly "CancelledError")).
  - reflexivity.
  - left. reflexivity.
  - reflexivity.
  - split; [intros i Hi; lia | reflexivity].
  - lia.
Defined.

(** X14. A session that nobody interrupts never ends: for every amount
    of fuel the run is still listening, it has neither unsubscribed nor
    released the connection, and it has written what the callback writes,
    from the fresh holder, on the frames delivered so far. *)
Theorem uninterrupted_session_keeps_listening
        (fuel : nat) (env : Env) (device : BLEDevice) :
  aenter env = Ret tt ->
  check_ok env ->
  start_notify env = Ret tt ->
  never_interrupted env ->
  exists t,
    connect_and_run fuel env device = (t, None) /\
    unsubscribes t = 0 /\ releases t = 0 /\
    writes t = snd (deliver last_mode_init (frames_from env 0 fuel)).
Proof.
  intros Henter Hcheck Hstart Hq.
  destruct (@connect_and_run_checked fuel env Henter device Hcheck)
    as (checks & Hchecks & Erun).
  destruct (@live_hud_listening fuel env Hstart Hq) as (t & Et & Hu & Hr & Hw).
  rewrite Et in Erun. eexists. split; [exact Erun|].
  destruct Hchecks as [-> | ->]; cbn; now rewrite Hu, Hr, Hw.
Qed.

Lemma uninterrupted_session_keeps_listening_witness :
  exists t,
    connect_and_run 4 env_quiet dev_A = (t, None) /\
    unsubscribes t = 0 /\ releases t = 0 /\
    writes t = [RACE_LINE].
Proof.
  apply (@uninterrupted_session_keeps_listening 4 env_quiet dev_A).
  - reflexivity.
  - left. reflexivity.
  - reflexivity.
  - intro i. reflexivity.
Defined.

(* ================================================================== *)
(** ** Facts about the [str] methods *)
(* ================================================================== *)

Import PyStr.

Section PyStrFacts.

Local Open Scope string_scope.

Lemma lstrip_space (ws s : string) :
  all_chars isspace ws = true -> lstrip (ws ++ s) = lstrip s.
Proof.
  induction ws as [|c ws IH]; cbn; [reflexivity|].
  intro H. apply andb_true_iff in H. destruct H as [Hc Hws].
  rewrite Hc. now apply IH.
Qed.

Lemma lstrip_no_space (s : string) :
  all_chars (fun c => negb (isspace c)) s = true -> lstrip s = s.
Proof.
  destruct s as [|c s]; cbn; [reflexivity|].
  intro H. apply andb_true_iff in H. destruct H as [Hc _].
  apply negb_true_iff in Hc. now rewrite Hc.
Qed.

Lemma rstrip_space (ws : string) :
  all_chars isspace ws = true -> rstrip ws = "".
Proof.
  induction ws as [|c ws IH]; cbn; [reflexivity|].
  intro H. apply andb_true_iff in H. destruct H as [Hc Hws].
  now rewrite (IH Hws), Hc.
Qed.

Lemma rstrip_no_space (s ws : string) :
  all_chars (fun c => negb (isspace c)) s = true ->
  all_chars isspace ws = true ->
  rstrip (s ++ ws) = s.
Proof.
  intros Hs Hws. induction s as [|c s IH]; cbn.
  - now apply rstrip_space.
  - cbn in Hs. apply andb_true_iff in Hs. destruct Hs as [Hc Hs].
    apply negb_true_iff in Hc. rewrite (IH Hs).
    destruct s; [now rewrite Hc | reflexivity].
Qed.

Lemma lstrip_all_space (ws : string) :
  all_chars isspace ws = true -> lstrip ws = "".
Proof.
  induction ws as [|c ws IH]; cbn; [reflexivity|].
  intro H. apply andb_true_iff in H. destruct H as [Hc Hws].
  rewrite Hc. now apply IH.
Qed.

(** Blanks around a text without white space are stripped, and nothing
    else. *)
Lemma strip_padded (ws s ws' : string) :
  all_chars isspace ws = true ->
  all_chars (fun c => negb (isspace c)) s = true ->
  all_chars isspace ws' = true ->
  strip (ws ++ s ++ ws') = s.
Proof.
  intros Hws Hs Hws'. unfold strip. rewrite (@lstrip_space ws _ Hws).
  destruct s as [|c s].
  - cbn [append]. now rewrite (@lstrip_all_space ws' Hws').
  - pose proof Hs as Hs'. cbn in Hs'.
    apply andb_true_iff in Hs'. destruct Hs' as [Hc _].
    apply negb_true_iff in Hc.
    replace (lstrip (String c s ++ ws')) with (String c s ++ ws')
      by (cbn; now rewrite Hc).
    now apply rstrip_no_space.
Qed.

Lemma all_chars_impl (p q : ascii -> bool) (s : string) :
  (forall c, p c = true -> q c = true) ->
  all_chars p s = true -> all_chars q s = true.
Proof.
  intro Hpq. induction s as [|c s IH]; cbn; [reflexivity|].
  intro H. apply andb_true_iff in H. destruct H as [Hc Hs].
  now rewrite (Hpq c Hc), (IH Hs).
Qed.

Lemma decimal_isdigit (c : ascii) : is_decimal c = true -> isdigit_char c = true.
Proof.
  unfold is_decimal, isdigit_char. intro H. now rewrite H.
Qed.

Lemma decimal_no_space (c : ascii) : is_decimal c = true -> negb (isspace c) = true.
Proof.
  unfold is_decimal, isspace. generalize (nat_of_ascii c). intros n H.
  apply andb_true_iff in H. destruct H as [H1 H2].
  apply Nat.leb_le in H1, H2.
  apply negb_true_iff.
  repeat (apply orb_false_iff; split);
    try (apply andb_false_iff);
    try (apply Nat.eqb_neq; lia).
  - right. apply Nat.leb_gt. lia.
  - right. apply Nat.leb_gt. lia.
Qed.

Lemma decimal_lower (c : ascii) : is_decimal c = true -> lower_char c = c.
Proof.
  unfold is_decimal, lower_char. generalize (nat_of_ascii c) at 1 2 3 4 5 6 7.
  intros n H. apply andb_true_iff in H. destruct H as [H1 H2].
  apply Nat.leb_le in H1, H2.
  replace (n <=? 90)%nat with true by (symmetry; apply Nat.leb_le; lia).
  replace (65 <=? n)%nat with false by (symmetry; apply Nat.leb_gt; lia).
  replace (192 <=? n)%nat with false by (symmetry; apply Nat.leb_gt; lia).
  reflexivity.
Qed.

Lemma lower_decimal (s : string) :
  all_chars is_decimal s = true -> lower s = s.
Proof.
  induction s as [|c s IH]; cbn; [reflexivity|].
  intro H. apply andb_true_iff in H. destruct H as [Hc Hs].
  now rewrite (decimal_lower _ Hc), (IH Hs).
Qed.

(** *** [str(n)] *)

Lemma string_of_uint_decimal (d : Decimal.uint) :
  all_chars is_decimal (NilEmpty.string_of_uint d) = true.
Proof. induction d; cbn; auto. Qed.

Lemma int_acc_of_uint (d : Decimal.uint) :
  forall acc, int_acc (NilEmpty.string_of_uint d) acc = Nat.of_uint_acc d acc.
Proof.
  induction d; intro acc; cbn [NilEmpty.string_of_uint int_acc Nat.of_uint_acc];
    rewrite ?IHd, ?Nat.tail_mul_spec; try reflexivity;
    f_equal; unfold digit_value; cbn; lia.
Qed.

Lemma py_str_decimal (n : nat) : all_chars is_decimal (py_str n) = true.
Proof. apply string_of_uint_decimal. Qed.

Lemma int_acc_py_str (n : nat) : int_acc (py_str n) 0 = n.
Proof.
  unfold py_str. rewrite int_acc_of_uint. apply DecimalNat.Unsigned.of_to.
Qed.

Lemma py_str_nonempty (n : nat) : py_str n <> "".
Proof.
  destruct n as [|n]; [discriminate|].
  intro H. pose proof (int_acc_py_str (S n)) as E. rewrite H in E. discriminate.
Qed.

(** [int(str(n)) == n], within the limit on the number of digits. *)
Lemma py_int_py_str (n : nat) :
  (String.length (py_str n) <= int_max_str_digits)%nat ->
  py_int (py_str n) = Ret n.
Proof.
  intro Hlen. unfold py_int.
  pose proof (py_str_nonempty n) as Hne.
  destruct (py_str n) as [|c s] eqn:E; [congruence|].
  rewrite <- E, py_str_decimal. cbn [negb].
  destruct (Nat.ltb_spec int_max_str_digits (String.length (py_str n)));
    [rewrite E in *; lia|].
  now rewrite int_acc_py_str.
Qed.

Lemma blanks_space (n : nat) : all_chars isspace (blanks n) = true.
Proof. induction n; cbn; auto. Qed.

Lemma length_append (s s' : string) :
  String.length (s ++ s') = String.length s + String.length s'.
Proof. induction s; cbn; auto. Qed.

Lemma length_blanks (n : nat) : String.length (blanks n) = n.
Proof. induction n; cbn; auto. Qed.

Lemma length_ljust (w : nat) (s : string) :
  (String.length s <= w)%nat -> String.length (ljust w s) = w.
Proof. intro H. unfold ljust. rewrite length_append, length_blanks. lia. Qed.

Lemma length_rjust (w : nat) (s : string) :
  (String.length s <= w)%nat -> String.length (rjust w s) = w.
Proof. intro H. unfold rjust. rewrite length_append, length_blanks. lia. Qed.

Lemma length_take (n : nat) (s : string) :
  String.length (take n s) = Nat.min n (String.length s).
Proof.
  revert s. induction n as [|n IH]; intros [|c s]; cbn; auto.
Qed.

End PyStrFacts.

(* ================================================================== *)
(** ** Properties of the prompt of [main] and of the table *)
(* ================================================================== *)

Import Main Table.

Lemma decimal_not_letter (s : string) (c : ascii) :
  is_decimal c = false ->
  all_chars is_decimal s = true ->
  String.eqb s (String c EmptyString) = false.
Proof.
  intros Hc Hs. apply String.eqb_neq. intros ->.
  cbn in Hs. rewrite Hc in Hs. discriminate.
Qed.

Lemma isdigit_py_str (n : nat) : isdigit (py_str n) = true.
Proof.
  pose proof (py_str_nonempty n) as Hne. unfold isdigit.
  destruct (py_str n) as [|c s] eqn:E; [congruence|]. rewrite <- E.
  apply (all_chars_impl is_decimal isdigit_char _ decimal_isdigit),
    py_str_decimal.
Qed.

Lemma strip_lower_number (ws ws' : string) (k : nat) :
  all_space ws -> all_space ws' ->
  lower (strip (ws ++ py_str k ++ ws')) = py_str k.
Proof.
  intros Hws Hws'. rewrite strip_padded; try assumption.
  - apply lower_decimal, py_str_decimal.
  - apply (all_chars_impl is_decimal _ _ decimal_no_space), py_str_decimal.
Qed.

Lemma choose_number (ndevices k : nat) (ws ws' : string) :
  all_space ws ->
  all_space ws' ->
  String.length (py_str k) <= int_max_str_digits ->
  choose ndevices (ws ++ py_str k ++ ws') =
    Ret (if (1 <=? k) && (k <=? ndevices) then Pick (k - 1) else OutOfRange).
Proof.
  intros Hws Hws' Hlen. unfold choose. cbv zeta.
  rewrite (strip_lower_number k Hws Hws').
  rewrite !decimal_not_letter by (reflexivity || apply py_str_decimal).
  rewrite isdigit_py_str, (py_int_py_str _ Hlen). cbn [negb bind].
  destruct (Nat.leb_spec 1 k) as [H1|H1];
    destruct (Nat.leb_spec k ndevices) as [H2|H2]; cbn [andb];
    destruct (Z.leb_spec 0 (Z.of_nat k - 1)) as [H3|H3];
    destruct (Z.ltb_spec (Z.of_nat k - 1) (Z.of_nat ndevices)) as [H4|H4];
    cbn [andb negb]; try lia; try reflexivity.
  do 2 f_equal. lia.
Qed.

(** X15. A number typed at the prompt, with any white space around it,
    selects the device of that number counted from 1: [k] picks
    [devices[k-1]] when [1 <= k <= len(devices)], and is answered "Out of
    range." otherwise, 0 included (for numbers within the limit of digits
    of [int]). *)
Theorem typed_number_picks (ndevices k : nat) (ws ws' : string) :
  all_space ws ->
  all_space ws' ->
  String.length (py_str k) <= int_max_str_digits ->
  choose ndevices (ws ++ py_str k ++ ws') =
    Ret (if (1 <=? k) && (k <=? ndevices) then Pick (k - 1) else OutOfRange).
Proof. apply choose_number. Qed.

Lemma typed_number_picks_witness :
  choose 5 (String (ascii_of_nat 9) "3 ")%string = Ret (Pick 2).
Proof.
  apply (@typed_number_picks 5 3 (String (ascii_of_nat 9) EmptyString) " "%string);
    [reflexivity | reflexivity | cbn; unfold int_max_str_digits; lia].
Defined.

Lemma isdigit_nonempty (s : string) : isdigit s = true -> s <> EmptyString.
Proof. intros H ->. discriminate. Qed.

Lemma choose_raises (ndevices : nat) (typed : string) (e : exn) :
  choose ndevices typed = Raise e <->
  e = Exception "ValueError" /\
  isdigit (lower (strip typed)) = true /\
  (all_chars is_decimal (lower (strip typed)) = false \/
   int_max_str_digits < String.length (lower (strip typed))).
Proof.
  unfold choose. cbv zeta.
  set (s := lower (strip typed)).
  destruct (String.eqb_spec s "q") as [Eq|_].
  { rewrite Eq. cbn. split; [discriminate | intros (_ & H & _); discriminate]. }
  destruct (String.eqb_spec s "r") as [Er|_].
  { rewrite Er. cbn. split; [discriminate | intros (_ & H & _); discriminate]. }
  destruct (isdigit s) eqn:Ed; cbn [negb];
    [|split; [discriminate | intros (_ & H & _); discriminate]].
  pose proof (@isdigit_nonempty s Ed) as Hne.
  unfold py_int. destruct s as [|c s'] eqn:Es; [congruence|]. rewrite <- Es in *.
  clearbody s.
  destruct (all_chars is_decimal s) eqn:Eall; cbn [negb bind].
  - destruct (Nat.ltb_spec int_max_str_digits (String.length s)) as [Hl|Hl];
      cbn [bind].
    + split; [intro H; injection H as <-; auto | intros (-> & _); reflexivity].
    + split.
      * destruct (negb _); discriminate.
      * intros (_ & _ & [H|H]); [discriminate | lia].
  - split; [intro H; injection H as <-; auto | intros (-> & _); reflexivity].
Qed.

(** X16. The prompt can make [main] raise: [int(s)] raises [ValueError]
    exactly when the typed line, stripped and lowered, passes [isdigit] and
    either holds a character that is no decimal digit (a superscript two,
    three or one) or has more digits than [int] accepts; nothing else makes
    the tests of the loop body raise.  A superscript two alone does. *)
Theorem prompt_raises_iff :
  (forall (ndevices : nat) (typed : string) (e : exn),
      choose ndevices typed = Raise e <->
      e = Exception "ValueError" /\
      isdigit (lower (strip typed)) = true /\
      (all_chars is_decimal (lower (strip typed)) = false \/
       int_max_str_digits < String.length (lower (strip typed)))) /\
  (forall ndevices : nat,
      choose ndevices superscript_two = Raise (Exception "ValueError")).
Proof.
  split; [exact choose_raises | reflexivity].
Qed.

Lemma append_empty_r (s : string) : (s ++ "")%string = s.
Proof. induction s; cbn; congruence. Qed.

(** X17. "q" quits and "r" rescans, in either case and with any white
    space around the letter. *)
Theorem quit_and_rescan_letters (ndevices : nat) (ws ws' : string) :
  all_space ws ->
  all_space ws' ->
  choose ndevices (ws ++ "q" ++ ws') = Ret Quit /\
  choose ndevices (ws ++ "Q" ++ ws') = Ret Quit /\
  choose ndevices (ws ++ "r" ++ ws') = Ret Rescan /\
  choose ndevices (ws ++ "R" ++ ws') = Ret Rescan.
Proof.
  intros Hws Hws'. unfold choose. cbv zeta.
  rewrite !strip_padded by (assumption || reflexivity).
  repeat split; reflexivity.
Qed.

Lemma quit_and_rescan_letters_witness :
  choose 2 ("  q" ++ "")%string = Ret Quit /\
  choose 2 ("  Q" ++ "")%string = Ret Quit /\
  choose 2 ("  r" ++ "")%string = Ret Rescan /\
  choose 2 ("  R" ++ "")%string = Ret Rescan.
Proof.
  apply (@quit_and_rescan_letters 2 "  "%string ""%string); reflexivity.
Defined.

Lemma table_rows_nth (other : string) (devices : list BLEDevice) :
  forall j i,
    nth_error (table_rows other j devices) i =
      option_map (table_row other (j + i)) (nth_error devices i).
Proof.
  induction devices as [|d devices IH]; intros j [|i]; cbn; try reflexivity.
  - now rewrite Nat.add_0_r.
  - rewrite IH. now replace (S j + i) with (j + S i) by lia.
Qed.

(** X18. The table and the prompt count alike: the line of the table for
    [devices[i]] starts with the number [i + 1], right-aligned on two
    columns, and typing that number as it is shown selects [devices[i]]. *)
Theorem shown_number_selects_row
        (other : string) (devices : list BLEDevice) (i : nat) (d : BLEDevice) :
  nth_error devices i = Some d ->
  String.length (py_str (S i)) <= int_max_str_digits ->
  (exists rest,
      nth_error (table_rows other 1 devices) i =
        Some (rjust 2 (py_str (S i)) ++ rest)%string) /\
  choose (List.length devices) (rjust 2 (py_str (S i))) = Ret (Pick i).
Proof.
  intros Hd Hlen. split.
  - rewrite table_rows_nth, Hd. cbn [option_map Nat.add]. unfold table_row.
    eexists. reflexivity.
  - unfold rjust.
    rewrite <- (append_empty_r (py_str (S i))) at 2.
    rewrite (@choose_number (List.length devices) (S i) _ EmptyString
               (blanks_space _) eq_refl Hlen).
    assert (i < List.length devices) as Hi
        by (apply nth_error_Some; congruence).
    destruct (Nat.leb_spec (S i) (List.length devices)); [|lia].
    cbn. now rewrite Nat.sub_0_r.
Qed.

Lemma shown_number_selects_row_witness :
  (exists rest,
      nth_error (table_rows "" 1 [dev_A; dev_B; dev_C]) 2 =
        Some (rjust 2 (py_str 3) ++ rest)%string) /\
  choose 3 (rjust 2 (py_str 3)) = Ret (Pick 2).
Proof.
  apply (@shown_number_selects_row ""%string [dev_A; dev_B; dev_C] 2 dev_C).
  - reflexivity.
  - cbn. unfold int_max_str_digits. lia.
Defined.

Lemma py_str_two_columns (i : nat) :
  i < 100 -> String.length (py_str i) <= 2.
Proof.
  intro H.
  assert (forallb (fun n => String.length (py_str n) <=? 2) (seq 0 100) = true)
    as Hall by (vm_compute; reflexivity).
  rewrite forallb_forall in Hall.
  apply Nat.leb_le, Hall, in_seq. lia.
Qed.

(** X19. The lines of the table are as wide as its rule: with fewer than
    100 devices, an address of at most 36 characters and a signal strength
    shown on at most 5 characters, every line has the 70 characters of the
    rule, whatever the length of the name. *)
Theorem table_row_width (other : string) (i : nat) (d : BLEDevice) :
  i < 100 ->
  String.length (address d) <= 36 ->
  String.length (rssi_shown other d) <= 5 ->
  String.length (table_row other i d) = String.length RULE.
Proof.
  intros Hi Ha Hr. unfold table_row.
  rewrite !length_append.
  rewrite (@length_rjust 2 _ (@py_str_two_columns i Hi)).
  rewrite (@length_ljust 36 _ Ha), (@length_rjust 5 _ Hr).
  rewrite length_ljust; [reflexivity|].
  unfold name_shown. rewrite length_take. lia.
Qed.

Lemma table_row_width_witness :
  String.length (table_row "" 7 dev_long_name) = String.length RULE.
Proof.
  apply (@table_row_width ""%string 7 dev_long_name).
  - lia.
  - cbn. lia.
  - apply Nat.leb_le. reflexivity.
Defined.

(* ================================================================== *)
(** ** Properties of the loop of [main] *)
(* ================================================================== *)





Section NoConnect.








End NoConnect.




